(** * Verification of the OpenSearch -> Elastic synchronisation scripts

    The repository holds three generations of one script:
    - the _restart_ script (first script of [src/sync-clusters.js]):
      unconditional [index] actions, three bulk attempts with a linear
      delay, a rethrown bulk failure, and a timer that restarts [syncData];
    - the _differential_ script (second script of [src/sync-clusters.js]):
      [hasDocumentChanged] in front of [update] / [doc_as_upsert] actions;
    - the _throttled_ script ([src/unnamed/part_000]): [BASE_DELAY],
      [MAX_DELAY], [MAX_RETRIES] and a pacing delay after every batch.

    Every script is embedded as explicit state passing over a scripted
    [world] (the answers of the two clusters), and leaves a trace of the
    effects it performs (log lines, waits, bulk requests). *)

From Stdlib Require Import ZArith Ascii String List Lia Bool DecimalPos DecimalZ.
From Stdlib Require Import Sorted.
From stdpp Require Import gmap strings list.

Local Open Scope Z_scope.

(** ** JSON values as the scripts see them

    A JavaScript object enumerates its own keys in a fixed order, and
    [JSON.stringify] follows that order: an object is an association list.
    Numbers are restricted to integers. *)

Module Json.

#[local] Unset Elimination Schemes.
Inductive value : Type :=
| JNull
| JBool (b : bool)
| JNum (n : Z)
| JStr (s : string)
| JArr (items : list value)
| JObj (fields : list (string * value)).

#[local] Set Elimination Schemes.

Definition obj : Type := list (string * value).

(** [obj[key]]: the first binding of [key]. *)
Fixpoint get_field (key : string) (o : obj) : option value :=
  match o with
  | [] => None
  | (k, v) :: rest => if String.eqb k key then Some v else get_field key rest
  end.

(** [obj[key] = v] on an object that may or may not own [key]: an existing
    key keeps its place, a new key is appended. *)
Fixpoint set_field (key : string) (v : value) (o : obj) : obj :=
  match o with
  | [] => [(key, v)]
  | (k, w) :: rest =>
      if String.eqb k key then (k, v) :: rest else (k, w) :: set_field key v rest
  end.

(** *** [JSON.stringify] *)

Definition quote_char : ascii := "034"%char.
Definition backslash : ascii := "092"%char.

Definition hex_digit (n : N) : ascii :=
  match n with
  | 0%N => "0" | 1%N => "1" | 2%N => "2" | 3%N => "3" | 4%N => "4"
  | 5%N => "5" | 6%N => "6" | 7%N => "7" | 8%N => "8" | 9%N => "9"
  | 10%N => "a" | 11%N => "b" | 12%N => "c" | 13%N => "d" | 14%N => "e"
  | _ => "f"
  end%char.

(** One code unit of a quoted string (QuoteJSONString). *)
Definition escape (c : ascii) : list ascii :=
  let n := N_of_ascii c in
  if (n =? 34)%N then [backslash; quote_char]
  else if (n =? 92)%N then [backslash; backslash]
  else if (n =? 8)%N then [backslash; "b"%char]
  else if (n =? 9)%N then [backslash; "t"%char]
  else if (n =? 10)%N then [backslash; "n"%char]
  else if (n =? 12)%N then [backslash; "f"%char]
  else if (n =? 13)%N then [backslash; "r"%char]
  else if (n <? 32)%N then
    [backslash; "u"%char; "0"%char; "0"%char;
     hex_digit (n / 16); hex_digit (n mod 16)]
  else [c].

Fixpoint escape_all (s : string) : list ascii :=
  match s with
  | EmptyString => []
  | String c rest => escape c ++ escape_all rest
  end.

Definition quote (s : string) : list ascii :=
  quote_char :: escape_all s ++ [quote_char].

Fixpoint digits (d : Decimal.uint) : list ascii :=
  match d with
  | Decimal.Nil => []
  | Decimal.D0 d => "0"%char :: digits d
  | Decimal.D1 d => "1"%char :: digits d
  | Decimal.D2 d => "2"%char :: digits d
  | Decimal.D3 d => "3"%char :: digits d
  | Decimal.D4 d => "4"%char :: digits d
  | Decimal.D5 d => "5"%char :: digits d
  | Decimal.D6 d => "6"%char :: digits d
  | Decimal.D7 d => "7"%char :: digits d
  | Decimal.D8 d => "8"%char :: digits d
  | Decimal.D9 d => "9"%char :: digits d
  end.

Definition numeral (n : Z) : list ascii :=
  match Z.to_int n with
  | Decimal.Pos d => digits d
  | Decimal.Neg d => "-"%char :: digits d
  end.

(** [Array.prototype.join(",")] on already serialised parts. *)
Fixpoint join_commas (parts : list (list ascii)) : list ascii :=
  match parts with
  | [] => []
  | [p] => p
  | p :: rest => p ++ ","%char :: join_commas rest
  end.

Fixpoint serialize (v : value) : list ascii :=
  match v with
  | JNull => list_ascii_of_string "null"
  | JBool true => list_ascii_of_string "true"
  | JBool false => list_ascii_of_string "false"
  | JNum n => numeral n
  | JStr s => quote s
  | JArr items => "["%char :: join_commas (map serialize items) ++ ["]"%char]
  | JObj fields =>
      "{"%char ::
      join_commas
        (map (fun kv => quote (fst kv) ++ ":"%char :: serialize (snd kv)) fields)
      ++ ["}"%char]
  end.

Definition JSON_stringify (v : value) : string :=
  string_of_list_ascii (serialize v).

(** *** Deep structural equality, as the specification words it

    Two objects are equal when they own the same keys with deeply equal
    values, whatever the order of the keys; arrays are compared position by
    position. *)
Fixpoint deep_equal (a b : value) : bool :=
  match a, b with
  | JNull, JNull => true
  | JBool x, JBool y => Bool.eqb x y
  | JNum x, JNum y => (x =? y)
  | JStr x, JStr y => String.eqb x y
  | JArr xs, JArr ys =>
      (fix all2 (xs ys : list value) : bool :=
         match xs, ys with
         | [], [] => true
         | x :: xs', y :: ys' => deep_equal x y && all2 xs' ys'
         | _, _ => false
         end) xs ys
  | JObj fs, JObj gs =>
      (length fs =? length gs)%nat &&
      forallb (fun kv =>
                 match get_field (fst kv) gs with
                 | Some w => deep_equal (snd kv) w
                 | None => false
                 end) fs
  | _, _ => false
  end.

(** No key occurs twice in an object, at any depth (true of every
    JavaScript object). *)
Fixpoint keys_unique (v : value) : bool :=
  match v with
  | JArr items => forallb keys_unique items
  | JObj fields =>
      bool_decide (NoDup (map fst fields)) &&
      forallb (fun kv => keys_unique (snd kv)) fields
  | _ => true
  end.

End Json.

(** ** What the three scripts share: the clusters, their answers, effects *)

Module Cluster.
Import Json.

(** An exception value: [error.message] and [error.meta.statusCode]. *)
Record js_error : Type := { message : string; statusCode : option Z }.

Definition plain_error (text : string) : js_error :=
  {| message := text; statusCode := None |}.

(** Reading a property of [undefined]. *)
Definition TypeError : js_error := plain_error "TypeError".

(** The settlement of an awaited client call. *)
Inductive call (A : Type) : Type :=
| Resolves (a : A)
| Rejects (e : js_error).
Arguments Resolves {A} a.
Arguments Rejects {A} e.

(** One element of [hits.hits]. *)
Record hit : Type := { _id : string; _source : obj }.

(** One entry of the [body] array of [targetClient.bulk]. *)
Inductive bulk_line : Type :=
| IndexAction (index id : string)      (* { index: { _index, _id } } *)
| SourceLine (source : obj)            (* the document itself *)
| UpdateAction (index id : string)     (* { update: { _index, _id } } *)
| UpsertLine (doc : obj).              (* { doc: source, doc_as_upsert: true } *)

(** One entry of [bulkResponse.items]: the action it answers and whether it
    carries an [error]. *)
Inductive item_kind : Type := ItemIndex | ItemUpdate | ItemOther.
Record bulk_item : Type := { kind : item_kind; item_error : bool }.
Record bulk_response : Type := { errors : bool; items : list bulk_item }.

(** The answer of [targetClient.get]: [response.body] may be missing, and
    so may [response.body._source]. *)
Inductive get_response : Type :=
| NoBody
| BodyWithoutSource
| BodyWithSource (existingData : obj).

Inductive level : Type := INFO | ERROR | DEBUG.

(** The observable effects of a script, in the order they happen. *)
Inductive event : Type :=
| Logged (lv : level) (text : string) (cause : option js_error)
| Waited (ms : Z)                      (* await new Promise(r => setTimeout(r, ms)) *)
| BulkSent (body : list bulk_line)     (* targetClient.bulk({ body }) *)
| ScrollAsked                          (* sourceClient.scroll(...) *)
| RestartTimerSet (ms : Z).            (* setTimeout(() => syncData(...), ms) *)

(** Everything outside the script during one pass.  [provisioning] folds
    the existence check, the mapping fetch and the index creation into one
    settlement; [source_count], [source_search] and [source_scroll] give
    [None] for a response without the expected [body]; [source_scroll] lists
    the answers of the successive [scroll] calls, an exhausted list standing
    for the empty page; [target_bulk n body] and [target_get n index id]
    answer the [n]-th such call of the pass.  [JSON_parse] is the decoder of
    the runtime, [None] when it throws. *)
Record world : Type := {
  JSON_parse : string -> option value;
  provisioning : call unit;
  source_count : call (option nat);
  source_search : call (option (list hit));
  source_scroll : list (call (option (list hit)));
  source_clearScroll : call unit;
  target_bulk : nat -> list bulk_line -> call bulk_response;
  target_get : nat -> string -> string -> call get_response;
  target_count : nat -> call nat
}.

(** How a block of statements ends. *)
Inductive completion (S : Type) : Type :=
| Normal (s : S)
| Returned (s : S)
| Thrown (e : js_error) (s : S).
Arguments Normal {S} s.
Arguments Returned {S} s.
Arguments Thrown {S} e s.

(** [try { block } catch (error) { handler }] *)
Definition try_catch {S : Type} (block : completion S)
    (handler : js_error -> S -> completion S) : completion S :=
  match block with
  | Thrown e s => handler e s
  | other => other
  end.

Definition state_of {S : Type} (c : completion S) : S :=
  match c with
  | Normal s | Returned s | Thrown _ s => s
  end.

Definition is_normal {S : Type} (c : completion S) : bool :=
  match c with
  | Normal _ => true
  | _ => false
  end.

Definition is_thrown {S : Type} (c : completion S) : bool :=
  match c with
  | Thrown _ _ => true
  | _ => false
  end.

(** [source.jsonPayload && typeof source.jsonPayload === 'string'] *)
Definition encoded_payload (source : obj) : option string :=
  match get_field "jsonPayload" source with
  | Some (JStr s) => if String.eqb s EmptyString then None else Some s
  | _ => None
  end.

(** The body of the transform step: the copy of [doc._source] with its
    payload decoded, or [None] when [JSON.parse] throws. *)
Definition decode (w : world) (doc : hit) : option obj :=
  let source := _source doc in
  match encoded_payload source with
  | Some s =>
      match JSON_parse w s with
      | Some payload => Some (set_field "jsonPayload" payload source)
      | None => None
      end
  | None => Some source
  end.

(** The [flatMap] callback of the restart and throttled scripts: a parse
    failure is caught inside the callback, which then still returns the
    action and the source as they are. *)
Definition index_lines (w : world) (targetIndex : string) (doc : hit)
    : list bulk_line :=
  [IndexAction targetIndex (_id doc);
   SourceLine (match decode w doc with
               | Some source => source
               | None => _source doc
               end)].

Definition index_operations (w : world) (targetIndex : string)
    (documents : list hit) : list bulk_line :=
  flat_map (index_lines w targetIndex) documents.

(** The documents whose payload failed to decode, in page order (one
    [failedDocs++] and one error line each). *)
Definition undecodable (w : world) (documents : list hit) : list hit :=
  List.filter
    (fun doc => match decode w doc with Some _ => false | None => true end)
    documents.

(** [bulkResponse.items.filter(item => item.index?.error).length] *)
Definition index_errors (resp : bulk_response) : nat :=
  length (List.filter
            (fun item =>
               match kind item with
               | ItemIndex => item_error item
               | _ => false
               end) (items resp)).

(** The waits of a trace, in order. *)
Fixpoint waits (tr : list event) : list Z :=
  match tr with
  | [] => []
  | Waited ms :: rest => ms :: waits rest
  | _ :: rest => waits rest
  end.

(** The bulk requests of a trace, in order. *)
Fixpoint bulks (tr : list event) : list (list bulk_line) :=
  match tr with
  | [] => []
  | BulkSent body :: rest => body :: bulks rest
  | _ :: rest => bulks rest
  end.

(** The number of [scroll] calls of a trace. *)
Fixpoint scroll_calls (tr : list event) : nat :=
  match tr with
  | [] => 0%nat
  | ScrollAsked :: rest => S (scroll_calls rest)
  | _ :: rest => scroll_calls rest
  end.

(** The causes the error lines of a trace report, in order. *)
Fixpoint causes (tr : list event) : list js_error :=
  match tr with
  | [] => []
  | Logged ERROR _ (Some cause) :: rest => cause :: causes rest
  | _ :: rest => causes rest
  end.

(** The identifiers a bulk body is keyed by. *)
Fixpoint action_ids (body : list bulk_line) : list string :=
  match body with
  | [] => []
  | IndexAction _ id :: rest => id :: action_ids rest
  | UpdateAction _ id :: rest => id :: action_ids rest
  | _ :: rest => action_ids rest
  end.

End Cluster.

(** ** The target collection under [index] actions

    An [index] action stores the source under its identifier, replacing
    what was there (the glossary's upsert).  The target may refuse single
    items (a mapping conflict and the like): [refuses] is that decision, a
    function of the item alone. *)

Module Target.
Import Json Cluster.

Abbreviation collection := (gmap (string * string) obj).

Fixpoint apply_bulk (refuses : string -> string -> obj -> bool)
    (body : list bulk_line) (c : collection) : option collection :=
  match body with
  | [] => Some c
  | IndexAction index id :: SourceLine source :: rest =>
      apply_bulk refuses rest
        (if refuses index id source then c else <[(index, id) := source]> c)
  | _ => None
  end.

(** What a body leaves under [key]: the source of its last accepted action
    on that key, if it has one. *)
Fixpoint last_write (refuses : string -> string -> obj -> bool)
    (key : string * string) (body : list bulk_line) : option obj :=
  match body with
  | IndexAction index id :: SourceLine source :: rest =>
      match last_write refuses key rest with
      | Some later => Some later
      | None =>
          if refuses index id source then None
          else if decide ((index, id) = key) then Some source else None
      end
  | _ => None
  end.

End Target.

(** ** The scheduler loops

    [while (true) { ... }] run for [fuel] iterations.  The loop stops for
    good when its body returns or throws out of it; [Running] says the loop
    was still going when the fuel ran out.  A body that gives [None] is a
    pass that never ends: the loop stays inside it. *)

Module Scheduler.
Import Cluster.

Inductive sched_event : Type :=
| PassStarted (n : nat)
| PassSettled (n : nat) (rejected : bool)
| Slept (ms : Z).

Inductive status : Type := Running | Exited.

Fixpoint forever (fuel : nat)
    (body : nat -> list sched_event -> option (completion (list sched_event)))
    (n : nat) (h : list sched_event) : status * list sched_event :=
  match fuel with
  | O => (Running, h)
  | S fuel' =>
      match body n h with
      | None => (Running, h ++ [PassStarted n])
      | Some (Normal h') => forever fuel' body (S n) h'
      | Some (Returned h') => (Exited, h')
      | Some (Thrown _ h') => (Exited, h')
      end
  end.

(** The passes a history has started. *)
Fixpoint started (h : list sched_event) : list nat :=
  match h with
  | [] => []
  | PassStarted n :: rest => n :: started rest
  | _ :: rest => started rest
  end.

(** The passes in flight after an event, given those in flight before it:
    a pass is in flight from its [PassStarted] to its [PassSettled]. *)
Definition in_flight_after (e : sched_event) (current : nat) : nat :=
  match e with
  | PassStarted _ => S current
  | PassSettled _ _ => Nat.pred current
  | Slept _ => current
  end.

(** The largest number of passes in flight at once along a history that
    starts with [current] passes in flight. *)
Fixpoint max_in_flight (h : list sched_event) (current : nat) : nat :=
  match h with
  | [] => current
  | e :: rest => Nat.max current (max_in_flight rest (in_flight_after e current))
  end.

Definition serialized (h : list sched_event) : bool :=
  (max_in_flight h 0 <=? 1)%nat.

End Scheduler.

(** ** The throttled script ([src/unnamed/part_000]) *)

Module Throttled.
Import Json Cluster Scheduler.

Definition BASE_DELAY : Z := 10000.
Definition MAX_DELAY : Z := 60000.
Definition INITIAL_BATCH_SIZE : nat := 200.
Definition MAX_RETRIES : nat := 5.

(** The [let]s of [syncData], with the number of bulk calls made so far and
    the trace of the pass. *)
Record state : Type := {
  delay : Z;
  processedDocs : nat;
  failedDocs : nat;
  bulkCalls : nat;
  trace : list event
}.

Definition emit (e : event) (st : state) : state :=
  {| delay := delay st; processedDocs := processedDocs st;
     failedDocs := failedDocs st; bulkCalls := bulkCalls st;
     trace := trace st ++ [e] |}.

Definition logInfo (text : string) : state -> state :=
  emit (Logged INFO text None).

Definition logError (text : string) (cause : option js_error)
    : state -> state :=
  emit (Logged ERROR text cause).

Definition add_failed (n : nat) (st : state) : state :=
  {| delay := delay st; processedDocs := processedDocs st;
     failedDocs := failedDocs st + n; bulkCalls := bulkCalls st;
     trace := trace st |}.

Definition add_processed (n : nat) (st : state) : state :=
  {| delay := delay st; processedDocs := processedDocs st + n;
     failedDocs := failedDocs st; bulkCalls := bulkCalls st;
     trace := trace st |}.

Definition set_delay (d : Z) (st : state) : state :=
  {| delay := d; processedDocs := processedDocs st;
     failedDocs := failedDocs st; bulkCalls := bulkCalls st;
     trace := trace st |}.

(** [targetClient.bulk({ refresh: true, body: operations, timeout: '2m' })] *)
Definition send_bulk (operations : list bulk_line) (st : state) : state :=
  emit (BulkSent operations)
    {| delay := delay st; processedDocs := processedDocs st;
       failedDocs := failedDocs st; bulkCalls := S (bulkCalls st);
       trace := trace st |}.

(** The [catch (parseError)] of the [flatMap] callback, lines 113-116. *)
Definition parse_failed (st : state) (doc : hit) : state :=
  add_failed 1
    (logError ("Failed to parse jsonPayload for doc " +:+ _id doc) None st).

(** Line 141: the delay of the next retry. *)
Definition backoff (d : Z) : Z := Z.min (d * 2) MAX_DELAY.

(** The [catch (bulkError)] of the retry loop, lines 136-141, but for the
    [retries++]. *)
Definition retry_later (bulkError : js_error) (st : state) : state :=
  let st := logError "Bulk insert failed. Retrying..." (Some bulkError) st in
  let st := emit (Waited (delay st)) st in
  set_delay (backoff (delay st)) st.

(** Lines 123-143.  [budget] is [MAX_RETRIES - retries]: the loop is left
    on the first success or when the budget is spent. *)
Fixpoint bulk_with_retry (w : world) (operations : list bulk_line)
    (budget retries : nat) (st : state) : state :=
  match budget with
  | O => st
  | S budget' =>
      let answer := target_bulk w (bulkCalls st) operations in
      let st := send_bulk operations st in
      match answer with
      | Resolves bulkResponse =>
          if errors bulkResponse
          then logError "Bulk operation had errors:" None
                 (add_failed (index_errors bulkResponse) st)
          else st
      | Rejects bulkError =>
          bulk_with_retry w operations budget' (S retries)
            (retry_later bulkError st)
      end
  end.

(** One turn of [while (documents.length > 0)], lines 104-149, up to the
    pacing wait. *)
Definition batch (w : world) (targetIndex : string) (documents : list hit)
    (st : state) : state :=
  let st := logInfo "Processing batch" st in
  let operations := index_operations w targetIndex documents in
  let st := fold_left parse_failed (undecodable w documents) st in
  let st := bulk_with_retry w operations MAX_RETRIES 0 st in
  let st := add_processed (length documents) st in
  let st := logInfo "Waiting before fetching the next batch..." st in
  emit (Waited (delay st)) st.

(** The whole loop, lines 103-155: [pending] are the answers the coming
    [scroll] calls will get. *)
Fixpoint batches (w : world) (targetIndex : string) (documents : list hit)
    (pending : list (call (option (list hit)))) (st : state)
    {struct pending} : completion state :=
  match documents with
  | [] => Normal st
  | _ :: _ =>
      let st := emit ScrollAsked (batch w targetIndex documents st) in
      match pending with
      | [] => Normal st
      | Resolves (Some next) :: pending' =>
          batches w targetIndex next pending' st
      | Resolves None :: _ => Thrown TypeError st
      | Rejects scrollError :: _ => Thrown scrollError st
      end
  end.

Definition initial : state :=
  {| delay := BASE_DELAY; processedDocs := 0; failedDocs := 0;
     bulkCalls := 0; trace := [] |}.

(** The [try] block of [syncData], lines 62-162. *)
Definition syncData_try (w : world) (sourceIndex targetIndex : string)
    : completion state :=
  let st := logInfo "Starting sync" initial in
  match provisioning w with
  | Rejects e => Thrown e st
  | Resolves _ =>
      match source_count w with
      | Rejects e => Thrown e st
      | Resolves None =>
          Thrown (plain_error "Invalid count response from OpenSearch") st
      | Resolves (Some totalDocs) =>
          let st := logInfo "Total documents to sync" st in
          match source_search w with
          | Rejects e => Thrown e st
          | Resolves None => Thrown TypeError st
          | Resolves (Some documents) =>
              match batches w targetIndex documents (source_scroll w) st with
              | Normal st =>
                  match source_clearScroll w with
                  | Rejects e => Thrown e st
                  | Resolves _ =>
                      Normal (logInfo "Processed | Failed"
                                (logInfo "Sync completed" st))
                  end
              | other => other
              end
          end
      end
  end.

(** [syncData], lines 60-167: whatever is thrown is logged and dropped. *)
Definition syncData (w : world) (sourceIndex targetIndex : string)
    : completion state :=
  try_catch (syncData_try w sourceIndex targetIndex)
    (fun error st => Normal (logError "Error during sync:" (Some error) st)).

(** One turn of the loop of [main], lines 171-175; the process runs pass
    [n] against [worlds n]. *)
Definition main_turn (worlds : nat -> world) (sourceIndex targetIndex : string)
    (n : nat) (h : list sched_event)
    : option (completion (list sched_event)) :=
  let h := h ++ [PassStarted n] in
  match syncData (worlds n) sourceIndex targetIndex with
  | Thrown e _ => Some (Thrown e (h ++ [PassSettled n true]))
  | Normal _ | Returned _ =>
      Some (Normal (h ++ [PassSettled n false; Slept (2 * 60 * 60 * 1000)]))
  end.

Definition main (fuel : nat) (worlds : nat -> world)
    (sourceIndex targetIndex : string) : status * list sched_event :=
  forever fuel (main_turn worlds sourceIndex targetIndex) 0%nat [].

End Throttled.

(** ** The restart script (first script of [src/sync-clusters.js]) *)

Module Restart.
Import Json Cluster Scheduler.

Record state : Type := {
  processedDocs : nat;
  failedDocs : nat;
  bulkCalls : nat;
  trace : list event
}.

Definition emit (e : event) (st : state) : state :=
  {| processedDocs := processedDocs st; failedDocs := failedDocs st;
     bulkCalls := bulkCalls st; trace := trace st ++ [e] |}.

Definition logInfo (text : string) : state -> state :=
  emit (Logged INFO text None).

Definition logDebug (text : string) : state -> state :=
  emit (Logged DEBUG text None).

Definition logError (text : string) (cause : option js_error)
    : state -> state :=
  emit (Logged ERROR text cause).

Definition add_failed (n : nat) (st : state) : state :=
  {| processedDocs := processedDocs st; failedDocs := failedDocs st + n;
     bulkCalls := bulkCalls st; trace := trace st |}.

Definition add_processed (n : nat) (st : state) : state :=
  {| processedDocs := processedDocs st + n; failedDocs := failedDocs st;
     bulkCalls := bulkCalls st; trace := trace st |}.

Definition send_bulk (operations : list bulk_line) (st : state) : state :=
  emit (BulkSent operations)
    {| processedDocs := processedDocs st; failedDocs := failedDocs st;
       bulkCalls := S (bulkCalls st); trace := trace st |}.

(** The [catch (parseError)] of the [flatMap] callback, lines 132-135. *)
Definition parse_failed (st : state) (doc : hit) : state :=
  add_failed 1
    (logError ("Failed to parse jsonPayload for document " +:+ _id doc) None st).

(** Lines 141-166: [let retries = 3; while (retries > 0) { ... }]. *)
Fixpoint bulk_with_retry (w : world) (operations : list bulk_line)
    (documents : list hit) (retries : nat) (st : state) : completion state :=
  match retries with
  | O => Normal st
  | S retries' =>
      let answer := target_bulk w (bulkCalls st) operations in
      let st := send_bulk operations st in
      match answer with
      | Resolves bulkResponse =>
          Normal (if errors bulkResponse
                  then logError "Bulk operation had errors:" None
                         (add_failed (index_errors bulkResponse) st)
                  else st)
      | Rejects bulkError =>
          match retries' with
          | O =>
              Thrown bulkError
                (add_failed (length documents)
                   (logError "Error during bulk indexing (all retries failed):"
                      (Some bulkError) st))
          | S _ =>
              let st := logError "Bulk indexing failed, retrying"
                          (Some bulkError) st in
              let st := emit (Waited (Z.of_nat (3 - retries') * 1000)) st in
              bulk_with_retry w operations documents retries' st
          end
      end
  end.

(** One turn of [while (documents.length > 0)] up to the bulk write, lines
    122-166. *)
Definition batch (w : world) (targetIndex : string) (documents : list hit)
    (st : state) : completion state :=
  let st := add_processed (length documents) st in
  let st := logDebug "Current scroll ID" (logInfo "Processing batch" st) in
  let operations := index_operations w targetIndex documents in
  let st := fold_left parse_failed (undecodable w documents) st in
  bulk_with_retry w operations documents 3 st.

(** The whole loop, lines 121-183. *)
Fixpoint batches (w : world) (targetIndex : string) (documents : list hit)
    (pending : list (call (option (list hit)))) (st : state)
    {struct pending} : completion state :=
  match documents with
  | [] => Normal st
  | _ :: _ =>
      match batch w targetIndex documents st with
      | Normal st =>
          let st := emit ScrollAsked st in
          match pending with
          | [] => Normal (logDebug "Retrieved next batch" st)
          | Resolves (Some next) :: pending' =>
              batches w targetIndex next pending'
                (logDebug "Retrieved next batch" st)
          | Resolves None :: _ =>
              let scrollError :=
                plain_error "Invalid scroll result from OpenSearch" in
              Thrown scrollError
                (logError "Error during scroll:" (Some scrollError) st)
          | Rejects scrollError :: _ =>
              Thrown scrollError
                (logError "Error during scroll:" (Some scrollError) st)
          end
      | other => other
      end
  end.

Definition initial : state :=
  {| processedDocs := 0; failedDocs := 0; bulkCalls := 0; trace := [] |}.

(** The [try] block of [syncData], lines 62-198. *)
Definition syncData_try (w : world) (sourceIndex targetIndex : string)
    : completion state :=
  let st := initial in
  match provisioning w with
  | Rejects e => Thrown e st
  | Resolves _ =>
      match source_count w with
      | Rejects e => Thrown e st
      | Resolves None =>
          Thrown (plain_error "Invalid count response from OpenSearch") st
      | Resolves (Some totalDocs) =>
          let st := logDebug "Starting sync"
                      (logInfo "Total documents to sync" st) in
          match source_search w with
          | Rejects searchError =>
              Thrown searchError
                (logError "Error initializing scroll search:"
                   (Some searchError) st)
          | Resolves None =>
              Thrown (plain_error "Invalid scroll response from OpenSearch") st
          | Resolves (Some documents) =>
              match batches w targetIndex documents (source_scroll w) st with
              | Normal st =>
                  let st :=
                    match source_clearScroll w with
                    | Rejects clearScrollError =>
                        logError "Error clearing scroll:"
                          (Some clearScrollError) st
                    | Resolves _ => st
                    end in
                  let st := logInfo "First sync cycle completed" st in
                  let st := logInfo "Total records processed" st in
                  let st := logInfo "Total records failed" st in
                  let st :=
                    logInfo
                      "Sync cycle completed successfully. Restarting process..."
                      st in
                  Normal (emit (RestartTimerSet 5000) st)
              | other => other
              end
          end
      end
  end.

(** [syncData], lines 61-204: the error is logged and thrown again. *)
Definition syncData (w : world) (sourceIndex targetIndex : string)
    : completion state :=
  try_catch (syncData_try w sourceIndex targetIndex)
    (fun error st => Thrown error (logError "Error during sync:" (Some error) st)).

(** *** The event loop under [main] and the restart timer

    What the runtime holds between two turns: the continuation of [main]
    after its five-second wait, the callback of the restart timer, and the
    settlement of a pass in flight.  [awaited] tells a pass that [main]
    awaits from one a timer started.  [exit_code] is set once the process
    has ended. *)
Inductive task : Type :=
| MainResumes
| TimerFires
| PassSettles (n : nat) (awaited : bool).

Record loop : Type := {
  now : Z;
  timers : list (Z * task);
  passes : nat;
  history : list sched_event;
  exit_code : option Z
}.

(** The task due first; among tasks due together, the one queued first. *)
Fixpoint earliest (q : list (Z * task))
    : option ((Z * task) * list (Z * task)) :=
  match q with
  | [] => None
  | x :: rest =>
      match earliest rest with
      | Some (y, rest') =>
          if fst y <? fst x then Some (y, x :: rest') else Some (x, rest)
      | None => Some (x, [])
      end
  end.

(** The delays of the restart timers a pass has set. *)
Fixpoint restart_timers (tr : list event) : list Z :=
  match tr with
  | [] => []
  | RestartTimerSet ms :: rest => ms :: restart_timers rest
  | _ :: rest => restart_timers rest
  end.

(** A call of [syncData]: pass number [passes l] starts now and settles
    [elapsed] later. *)
Definition start_pass (elapsed : nat -> Z) (awaited : bool) (l : loop) : loop :=
  let n := passes l in
  {| now := now l;
     timers := timers l ++ [(now l + elapsed n, PassSettles n awaited)];
     passes := S n;
     history := history l ++ [PassStarted n];
     exit_code := exit_code l |}.

(** A pass settles: the timers it has set (line 198) are queued, and
    [main], when it awaited this pass, goes on to its own wait (lines
    209-214) whether the pass resolved or rejected.  The callback of the
    restart timer drops the promise of the pass it starts: when such a pass
    rejects (the [throw error] of line 202) nothing handles the rejection,
    and the runtime ends the process with code 1, whatever is pending. *)
Definition settle_pass (worlds : nat -> world) (sourceIndex targetIndex : string)
    (n : nat) (awaited : bool) (l : loop) : loop :=
  let c := syncData (worlds n) sourceIndex targetIndex in
  let set := map (fun ms => (now l + ms, TimerFires))
                 (restart_timers (trace (state_of c))) in
  let wait := if awaited then [(now l + 5000, MainResumes)] else [] in
  if is_thrown c && negb awaited
  then {| now := now l;
          timers := [];
          passes := passes l;
          history := history l ++ [PassSettled n true];
          exit_code := Some 1 |}
  else {| now := now l;
          timers := timers l ++ set ++ wait;
          passes := passes l;
          history := history l ++ [PassSettled n (is_thrown c)];
          exit_code := exit_code l |}.

(** One turn of the event loop; [None] when the process has ended or
    nothing is left to run. *)
Definition step (worlds : nat -> world) (elapsed : nat -> Z)
    (sourceIndex targetIndex : string) (l : loop) : option loop :=
  match exit_code l with
  | Some _ => None
  | None =>
      match earliest (timers l) with
      | None => None
      | Some ((due, k), rest) =>
          let l := {| now := Z.max (now l) due; timers := rest;
                      passes := passes l; history := history l;
                      exit_code := None |} in
          Some match k with
               | MainResumes => start_pass elapsed true l
               | TimerFires => start_pass elapsed false l
               | PassSettles n awaited =>
                   settle_pass worlds sourceIndex targetIndex n awaited l
               end
      end
  end.

(** [main()] at line 218: the first pass starts at once. *)
Definition boot (elapsed : nat -> Z) : loop :=
  start_pass elapsed true
    {| now := 0; timers := []; passes := 0; history := [];
       exit_code := None |}.

Fixpoint run (turns : nat) (worlds : nat -> world) (elapsed : nat -> Z)
    (sourceIndex targetIndex : string) (l : loop) : option loop :=
  match turns with
  | O => Some l
  | S turns' =>
      match step worlds elapsed sourceIndex targetIndex l with
      | Some l' => run turns' worlds elapsed sourceIndex targetIndex l'
      | None => None
      end
  end.

(** No restart timer has been set so far. *)
Definition no_timer (st : state) : Prop := restart_timers (trace st) = [].


(** The process is running. *)
Definition running (l : loop) : Prop := exit_code l = None.

(** The task that is run next is the settlement of pass [n], which the
    restart timer started, and the pass is rejected. *)
Definition unhandled (worlds : nat -> world) (sourceIndex targetIndex : string)
    (l : loop) (n : nat) : Prop :=
  (exists due rest,
      earliest (timers l) = Some ((due, PassSettles n false), rest)) /\
  is_thrown (syncData (worlds n) sourceIndex targetIndex) = true.

End Restart.

(** ** The differential script (second script of [src/sync-clusters.js]) *)

Module Differential.
Import Json Cluster Scheduler.

Record state : Type := {
  processedDocs : nat;
  updatedDocs : nat;
  skippedDocs : nat;
  failedDocs : nat;
  batchNumber : nat;
  getCalls : nat;
  bulkCalls : nat;
  countCalls : nat;
  trace : list event
}.

Definition emit (e : event) (st : state) : state :=
  {| processedDocs := processedDocs st; updatedDocs := updatedDocs st;
     skippedDocs := skippedDocs st; failedDocs := failedDocs st;
     batchNumber := batchNumber st; getCalls := getCalls st;
     bulkCalls := bulkCalls st; countCalls := countCalls st;
     trace := trace st ++ [e] |}.

Definition logInfo (text : string) : state -> state :=
  emit (Logged INFO text None).

Definition logError (text : string) (cause : option js_error)
    : state -> state :=
  emit (Logged ERROR text cause).

Definition add_processed (n : nat) (st : state) : state :=
  {| processedDocs := processedDocs st + n; updatedDocs := updatedDocs st;
     skippedDocs := skippedDocs st; failedDocs := failedDocs st;
     batchNumber := batchNumber st; getCalls := getCalls st;
     bulkCalls := bulkCalls st; countCalls := countCalls st;
     trace := trace st |}.

Definition add_updated (n : nat) (st : state) : state :=
  {| processedDocs := processedDocs st; updatedDocs := updatedDocs st + n;
     skippedDocs := skippedDocs st; failedDocs := failedDocs st;
     batchNumber := batchNumber st; getCalls := getCalls st;
     bulkCalls := bulkCalls st; countCalls := countCalls st;
     trace := trace st |}.

Definition add_skipped (n : nat) (st : state) : state :=
  {| processedDocs := processedDocs st; updatedDocs := updatedDocs st;
     skippedDocs := skippedDocs st + n; failedDocs := failedDocs st;
     batchNumber := batchNumber st; getCalls := getCalls st;
     bulkCalls := bulkCalls st; countCalls := countCalls st;
     trace := trace st |}.

Definition add_failed (n : nat) (st : state) : state :=
  {| processedDocs := processedDocs st; updatedDocs := updatedDocs st;
     skippedDocs := skippedDocs st; failedDocs := failedDocs st + n;
     batchNumber := batchNumber st; getCalls := getCalls st;
     bulkCalls := bulkCalls st; countCalls := countCalls st;
     trace := trace st |}.

Definition next_batch (st : state) : state :=
  {| processedDocs := processedDocs st; updatedDocs := updatedDocs st;
     skippedDocs := skippedDocs st; failedDocs := failedDocs st;
     batchNumber := S (batchNumber st); getCalls := getCalls st;
     bulkCalls := bulkCalls st; countCalls := countCalls st;
     trace := trace st |}.

Definition asked_get (st : state) : state :=
  {| processedDocs := processedDocs st; updatedDocs := updatedDocs st;
     skippedDocs := skippedDocs st; failedDocs := failedDocs st;
     batchNumber := batchNumber st; getCalls := S (getCalls st);
     bulkCalls := bulkCalls st; countCalls := countCalls st;
     trace := trace st |}.

Definition asked_count (st : state) : state :=
  {| processedDocs := processedDocs st; updatedDocs := updatedDocs st;
     skippedDocs := skippedDocs st; failedDocs := failedDocs st;
     batchNumber := batchNumber st; getCalls := getCalls st;
     bulkCalls := bulkCalls st; countCalls := S (countCalls st);
     trace := trace st |}.

Definition send_bulk (operations : list bulk_line) (st : state) : state :=
  emit (BulkSent operations)
    {| processedDocs := processedDocs st; updatedDocs := updatedDocs st;
       skippedDocs := skippedDocs st; failedDocs := failedDocs st;
       batchNumber := batchNumber st; getCalls := getCalls st;
       bulkCalls := S (bulkCalls st); countCalls := countCalls st;
       trace := trace st |}.

(** Lines 278-297, on the settlement of [targetClient.get]: the verdict and
    whether the error is logged. *)
Definition changed_verdict (answer : call get_response) (newData : obj)
    : bool * option js_error :=
  match answer with
  | Resolves (BodyWithSource existingData) =>
      if String.eqb (JSON_stringify (JObj existingData))
                    (JSON_stringify (JObj newData))
      then (false, None)
      else (true, None)
  | Resolves _ => (true, None)
  | Rejects error =>
      match statusCode error with
      | Some code => if code =? 404 then (true, None) else (true, Some error)
      | None => (true, Some error)
      end
  end.

Definition hasDocumentChanged (w : world) (index docId : string)
    (newData : obj) (st : state) : bool * state :=
  let answer := target_get w (getCalls st) index docId in
  let st := asked_get st in
  match changed_verdict answer newData with
  | (verdict, Some error) =>
      (verdict, logError ("Error checking document " +:+ docId) (Some error) st)
  | (verdict, None) => (verdict, st)
  end.

(** Lines 299-308. *)
Definition getElasticsearchDocCount (w : world) (st : state) : nat * state :=
  let answer := target_count w (countCalls st) in
  let st := asked_count st in
  match answer with
  | Resolves n => (n, st)
  | Rejects error =>
      (0%nat,
       logError "Error fetching Elasticsearch document count" (Some error) st)
  end.

(** The [for (const doc of documents)] loop, lines 360-386. *)
Fixpoint collect (w : world) (targetIndex : string) (documents : list hit)
    (operations : list bulk_line) (st : state) : list bulk_line * state :=
  match documents with
  | [] => (operations, st)
  | doc :: rest =>
      match decode w doc with
      | None =>
          collect w targetIndex rest operations
            (add_failed 1
               (logError ("Skipping document " +:+ _id doc) None st))
      | Some source =>
          let (needsUpdate, st) :=
            hasDocumentChanged w targetIndex (_id doc) source st in
          if needsUpdate
          then collect w targetIndex rest
                 (operations ++
                  [UpdateAction targetIndex (_id doc); UpsertLine source]) st
          else collect w targetIndex rest operations (add_skipped 1 st)
      end
  end.

(** The [forEach] over [bulkResponse.items], lines 392-398. *)
Definition tally (st : state) (item : bulk_item) : state :=
  match kind item with
  | ItemUpdate => if item_error item then add_failed 1 st else add_updated 1 st
  | _ => add_updated 1 st
  end.


(** One turn of [while (documents.length > 0)], lines 353-406. *)
Definition batch (w : world) (targetIndex : string) (documents : list hit)
    (st : state) : state :=
  let st := next_batch st in
  let st := add_processed (length documents) st in
  let st := logInfo "Processing batch" st in
  let (operations, st) := collect w targetIndex documents [] st in
  let st :=
    match operations with
    | [] => st
    | _ :: _ =>
        let answer := target_bulk w (bulkCalls st) operations in
        let st := send_bulk operations st in
        match answer with
        | Resolves bulkResponse => fold_left tally (items bulkResponse) st
        | Rejects bulkError =>
            add_failed (length operations / 2)
              (logError "Bulk indexing error" (Some bulkError) st)
        end
    end in
  logInfo "Batch completed" st.

(** The loop of lines 352-407.  No statement of its body assigns
    [documents], so the loop is run on fuel: [None] when the fuel is spent
    with the loop still going. *)
Fixpoint batches (fuel : nat) (w : world) (targetIndex : string)
    (documents : list hit) (st : state) : option state :=
  match documents with
  | [] => Some st
  | _ :: _ =>
      match fuel with
      | O => None
      | S fuel' =>
          batches fuel' w targetIndex documents (batch w targetIndex documents st)
      end
  end.

Definition initial : state :=
  {| processedDocs := 0; updatedDocs := 0; skippedDocs := 0; failedDocs := 0;
     batchNumber := 0; getCalls := 0; bulkCalls := 0; countCalls := 0;
     trace := [] |}.

(** The [try] block inside [while (true)], lines 313-416. *)
Definition syncData_try (fuel : nat) (w : world)
    (sourceIndex targetIndex : string) : option (completion state) :=
  let st := logInfo "New Sync Job Started" initial in
  match source_count w with
  | Rejects e => Some (Thrown e st)
  | Resolves None =>
      Some (Thrown (plain_error "Invalid count response from OpenSearch") st)
  | Resolves (Some totalDocs) =>
      let st := logInfo "Total documents in OpenSearch" st in
      match totalDocs with
      | O => Some (Returned (logInfo "No documents to sync. Exiting..." st))
      | S _ =>
          let (elasticBeforeCount, st) := getElasticsearchDocCount w st in
          let st := logInfo "Documents in Elasticsearch before sync" st in
          match source_search w with
          | Rejects e => Some (Thrown e st)
          | Resolves None => Some (Thrown TypeError st)
          | Resolves (Some documents) =>
              match batches fuel w targetIndex documents st with
              | None => None
              | Some st =>
                  let (elasticAfterCount, st) :=
                    getElasticsearchDocCount w st in
                  Some (Normal (logInfo "Final Elasticsearch Count"
                                  (logInfo "Sync Job Completed" st)))
              end
          end
      end
  end.

(** One turn of [while (true)], lines 312-424. *)
Definition sync_turn (fuel : nat) (worlds : nat -> world)
    (sourceIndex targetIndex : string) (n : nat) (h : list sched_event)
    : option (completion (list sched_event)) :=
  let h := h ++ [PassStarted n] in
  match syncData_try fuel (worlds n) sourceIndex targetIndex with
  | None => None
  | Some c =>
      match try_catch c
              (fun error st =>
                 Normal (logError "Error during sync:" (Some error) st)) with
      | Normal _ => Some (Normal (h ++ [PassSettled n false; Slept 60000]))
      | Returned _ => Some (Returned (h ++ [PassSettled n false]))
      | Thrown e _ => Some (Thrown e (h ++ [PassSettled n true]))
      end
  end.



(** [syncData], lines 311-425, called once at line 428: [turns] turns of
    its loop, each pass with [fuel] for its batch loop. *)
Definition syncData (turns fuel : nat) (worlds : nat -> world)
    (sourceIndex targetIndex : string) : status * list sched_event :=
  forever turns (sync_turn fuel worlds sourceIndex targetIndex) 0%nat [].

End Differential.

(** ** Startup: the required settings (all three scripts) *)

Module Startup.





End Startup.

(** ** A reference decoder

    [JSON.parse] on the fragment of JSON whose numbers are integer numerals
    and whose [\u] escapes stay below 256; any other text is refused.  The
    worlds of the examples below decode with it. *)

Module Decoder.
Import Json.

Definition is_space (c : ascii) : bool :=
  let n := N_of_ascii c in
  ((n =? 32) || (n =? 9) || (n =? 10) || (n =? 13))%N.

Definition is_digit (c : ascii) : bool :=
  let n := N_of_ascii c in
  ((48 <=? n) && (n <=? 57))%N.

Fixpoint skip_spaces (s : list ascii) : list ascii :=
  match s with
  | c :: rest => if is_space c then skip_spaces rest else s
  | [] => []
  end.

Fixpoint strip (prefix s : list ascii) : option (list ascii) :=
  match prefix, s with
  | [], _ => Some s
  | p :: prefix', c :: s' => if Ascii.eqb p c then strip prefix' s' else None
  | _ :: _, [] => None
  end.

Definition hex_value (c : ascii) : option N :=
  let n := N_of_ascii c in
  if ((48 <=? n) && (n <=? 57))%N then Some (n - 48)%N
  else if ((97 <=? n) && (n <=? 102))%N then Some (n - 87)%N
  else if ((65 <=? n) && (n <=? 70))%N then Some (n - 55)%N
  else None.

(** One code unit read back from the inside of a string literal, with the
    text that follows it: the inverse of [escape]. *)
Definition unescape (s : list ascii) : option (ascii * list ascii) :=
  match s with
  | [] => None
  | c :: rest =>
      if Ascii.eqb c quote_char then None
      else if Ascii.eqb c backslash then
        match rest with
        | e :: rest' =>
            if Ascii.eqb e quote_char then Some (quote_char, rest')
            else if Ascii.eqb e backslash then Some (backslash, rest')
            else if Ascii.eqb e "b" then Some ("008"%char, rest')
            else if Ascii.eqb e "t" then Some ("009"%char, rest')
            else if Ascii.eqb e "n" then Some ("010"%char, rest')
            else if Ascii.eqb e "f" then Some ("012"%char, rest')
            else if Ascii.eqb e "r" then Some ("013"%char, rest')
            else if Ascii.eqb e "u" then
              match rest' with
              | _ :: _ :: h :: l :: rest'' =>
                  match hex_value h, hex_value l with
                  | Some hv, Some lv => Some (ascii_of_N (16 * hv + lv), rest'')
                  | _, _ => None
                  end
              | _ => None
              end
            else None
        | [] => None
        end
      else Some (c, rest)
  end.

(** The text after a numeral does not go on with a digit. *)
Definition ends_numeral (k : list ascii) : bool :=
  match k with
  | [] => true
  | c :: _ => negb (is_digit c)
  end.

(** The characters of a string literal after its opening quote. *)
Fixpoint read_string (fuel : nat) (s : list ascii) (acc : string)
    : option (string * list ascii) :=
  match fuel with
  | O => None
  | S fuel' =>
      match s with
      | [] => None
      | c :: rest =>
          if Ascii.eqb c quote_char then Some (String.rev acc, rest)
          else if Ascii.eqb c backslash then
            match rest with
            | e :: rest' =>
                let simple (x : ascii) :=
                  read_string fuel' rest' (String x acc) in
                if Ascii.eqb e quote_char then simple quote_char
                else if Ascii.eqb e backslash then simple backslash
                else if Ascii.eqb e "/" then simple "/"%char
                else if Ascii.eqb e "b" then simple "008"%char
                else if Ascii.eqb e "t" then simple "009"%char
                else if Ascii.eqb e "n" then simple "010"%char
                else if Ascii.eqb e "f" then simple "012"%char
                else if Ascii.eqb e "r" then simple "013"%char
                else if Ascii.eqb e "u" then
                  match rest' with
                  | "0"%char :: "0"%char :: h :: l :: rest'' =>
                      match hex_value h, hex_value l with
                      | Some hv, Some lv =>
                          read_string fuel' rest''
                            (String (ascii_of_N (16 * hv + lv)) acc)
                      | _, _ => None
                      end
                  | _ => None
                  end
                else None
            | [] => None
            end
          else if (N_of_ascii c <? 32)%N then None
          else read_string fuel' rest (String c acc)
      end
  end.

Fixpoint read_digits (s : list ascii) (acc : Z) : Z * list ascii :=
  match s with
  | c :: rest =>
      if is_digit c
      then read_digits rest (10 * acc + (Z.of_N (N_of_ascii c) - 48))
      else (acc, s)
  | [] => (acc, [])
  end.

(** An integer numeral: an optional sign, then [0] or digits that do not
    start with [0]; a fraction or an exponent is outside the fragment. *)
Definition read_number (s : list ascii) : option (Z * list ascii) :=
  let (negative, body) :=
    match s with
    | "-"%char :: rest => (true, rest)
    | _ => (false, s)
    end in
  match body with
  | c :: rest =>
      if is_digit c then
        let (n, after) :=
          if Ascii.eqb c "0" then (0, rest) else read_digits body 0 in
        match after with
        | d :: _ =>
            if is_digit d || Ascii.eqb d "." || Ascii.eqb d "e" || Ascii.eqb d "E"
            then None
            else Some (if negative then - n else n, after)
        | [] => Some (if negative then - n else n, after)
        end
      else None
  | [] => None
  end.

Fixpoint read_value (fuel : nat) (s : list ascii) {struct fuel}
    : option (value * list ascii) :=
  match fuel with
  | O => None
  | S fuel' =>
      match skip_spaces s with
      | [] => None
      | c :: rest =>
          if Ascii.eqb c "n" then
            option_map (pair JNull) (strip (list_ascii_of_string "ull") rest)
          else if Ascii.eqb c "t" then
            option_map (pair (JBool true))
              (strip (list_ascii_of_string "rue") rest)
          else if Ascii.eqb c "f" then
            option_map (pair (JBool false))
              (strip (list_ascii_of_string "alse") rest)
          else if Ascii.eqb c quote_char then
            match read_string fuel' rest EmptyString with
            | Some (str, after) => Some (JStr str, after)
            | None => None
            end
          else if Ascii.eqb c "[" then
            match skip_spaces rest with
            | "]"%char :: after => Some (JArr [], after)
            | _ =>
                match read_items fuel' rest [] with
                | Some (items, after) => Some (JArr items, after)
                | None => None
                end
            end
          else if Ascii.eqb c "{" then
            match skip_spaces rest with
            | "}"%char :: after => Some (JObj [], after)
            | _ =>
                match read_fields fuel' rest [] with
                | Some (fields, after) => Some (JObj fields, after)
                | None => None
                end
            end
          else
            match read_number (c :: rest) with
            | Some (n, after) => Some (JNum n, after)
            | None => None
            end
      end
  end
with read_items (fuel : nat) (s : list ascii) (acc : list value) {struct fuel}
    : option (list value * list ascii) :=
  match fuel with
  | O => None
  | S fuel' =>
      match read_value fuel' s with
      | Some (v, after) =>
          match skip_spaces after with
          | ","%char :: more => read_items fuel' more (acc ++ [v])
          | "]"%char :: more => Some (acc ++ [v], more)
          | _ => None
          end
      | None => None
      end
  end
with read_fields (fuel : nat) (s : list ascii) (acc : obj) {struct fuel}
    : option (obj * list ascii) :=
  match fuel with
  | O => None
  | S fuel' =>
      match skip_spaces s with
      | c :: rest =>
          if Ascii.eqb c quote_char then
            match read_string fuel' rest EmptyString with
            | Some (key, after) =>
                match skip_spaces after with
                | ":"%char :: more =>
                    match read_value fuel' more with
                    | Some (v, after') =>
                        match skip_spaces after' with
                        | ","%char :: more' =>
                            read_fields fuel' more' (set_field key v acc)
                        | "}"%char :: more' => Some (set_field key v acc, more')
                        | _ => None
                        end
                    | None => None
                    end
                | _ => None
                end
            | None => None
            end
          else None
      | [] => None
      end
  end.

Definition reference_parse (text : string) : option value :=
  let s := list_ascii_of_string text in
  match read_value (2 * length s + 2) s with
  | Some (v, after) =>
      match skip_spaces after with
      | [] => Some v
      | _ :: _ => None
      end
  | None => None
  end.

End Decoder.

(** ** Worlds for the examples *)

Module Fixtures.
Import Json Cluster Decoder.

Definition quoted (s : string) : string :=
  String quote_char (s +:+ String quote_char EmptyString).

(** The three records of the end-to-end scenario: [a] holds valid encoded
    text, [b] an already structured payload, [c] malformed text. *)
Definition doc_a : hit :=
  {| _id := "a";
     _source := [("title", JStr "first");
                 ("jsonPayload", JStr ("{" +:+ quoted "n" +:+ ":1}"))] |}.

Definition doc_b : hit :=
  {| _id := "b";
     _source := [("title", JStr "second");
                 ("jsonPayload", JObj [("n", JNum 2)])] |}.

Definition doc_c : hit :=
  {| _id := "c";
     _source := [("title", JStr "third"); ("jsonPayload", JStr "{bad")] |}.

Definition page_abc : list hit := [doc_a; doc_b; doc_c].

Definition not_found : js_error :=
  {| message := "Not Found"; statusCode := Some 404 |}.

Definition unreachable : js_error :=
  {| message := "connect ETIMEDOUT"; statusCode := None |}.

(** A target that takes every action: one item without error per action. *)
Definition accepted (k : item_kind) (body : list bulk_line) : bulk_response :=
  {| errors := false;
     items := map (fun _ => {| kind := k; item_error := false |})
                  (action_ids body) |}.

(** Both clusters answer every call; the source holds [pages]; the target
    holds nothing. *)
Definition calm (pages : list (list hit)) : world :=
  {| JSON_parse := reference_parse;
     provisioning := Resolves tt;
     source_count := Resolves (Some (length (concat pages)));
     source_search := Resolves (Some (hd [] pages));
     source_scroll := map (fun p => Resolves (Some p)) (tl pages);
     source_clearScroll := Resolves tt;
     target_bulk := fun _ body => Resolves (accepted ItemIndex body);
     target_get := fun _ _ _ => Rejects not_found;
     target_count := fun _ => Resolves 0%nat |}.

(** [w] with another answer to the count of the source. *)
Definition with_source_count (count : call (option nat)) (w : world) : world :=
  {| JSON_parse := JSON_parse w;
     provisioning := provisioning w;
     source_count := count;
     source_search := source_search w;
     source_scroll := source_scroll w;
     source_clearScroll := source_clearScroll w;
     target_bulk := target_bulk w;
     target_get := target_get w;
     target_count := target_count w |}.

(** [w] with another bulk endpoint. *)
Definition with_bulk (bulk : nat -> list bulk_line -> call bulk_response)
    (w : world) : world :=
  {| JSON_parse := JSON_parse w;
     provisioning := provisioning w;
     source_count := source_count w;
     source_search := source_search w;
     source_scroll := source_scroll w;
     source_clearScroll := source_clearScroll w;
     target_bulk := bulk;
     target_get := target_get w;
     target_count := target_count w |}.

(** [w] with another document endpoint. *)
Definition with_get (get : nat -> string -> string -> call get_response)
    (w : world) : world :=
  {| JSON_parse := JSON_parse w;
     provisioning := provisioning w;
     source_count := source_count w;
     source_search := source_search w;
     source_scroll := source_scroll w;
     source_clearScroll := source_clearScroll w;
     target_bulk := target_bulk w;
     target_get := get;
     target_count := target_count w |}.

(** The bulk endpoint is out of reach for the first [n] calls of the pass. *)
Definition failing_first (n : nat) (k : item_kind)
    : nat -> list bulk_line -> call bulk_response :=
  fun i body =>
    if (i <? n)%nat then Rejects unreachable else Resolves (accepted k body).

End Fixtures.

(** ** Provisioning of the target index (restart script, lines 65-89)

    The worlds above hold the outcome of this step as [provisioning]; here
    it is taken apart. *)

Module Provision.
Import Json Cluster.

(** [delete obj[key]] *)
Fixpoint delete_field (key : string) (o : obj) : obj :=
  match o with
  | [] => []
  | (k, v) :: rest =>
      if String.eqb k key then delete_field key rest
      else (k, v) :: delete_field key rest
  end.

(** Lines 76-77 on [properties.jsonPayload], known to be neither undefined
    nor null.  The script is not in strict mode: writing a property of a
    primitive does nothing, and what is written on an array is none of its
    elements. *)
Definition retype_payload (jsonPayload : value) : value :=
  match jsonPayload with
  | JObj fields =>
      JObj (delete_field "fields" (set_field "type" (JStr "object") fields))
  | other => other
  end.

(** [delete property.analyzer], lines 78-79, on a property that is neither
    undefined nor null. *)
Definition strip_analyzer (property : value) : value :=
  match property with
  | JObj fields => JObj (delete_field "analyzer" fields)
  | other => other
  end.

(** Lines 76-79 on the value of [mappings.properties]; [None] is the
    TypeError of reading or writing a property of undefined or null. *)
Definition adjust_properties (properties : value) : option value :=
  match properties with
  | JObj props =>
      match get_field "jsonPayload" props with
      | None | Some JNull => None
      | Some jsonPayload =>
          let props :=
            set_field "jsonPayload" (retype_payload jsonPayload) props in
          match get_field "marketVariation" props with
          | None | Some JNull => None
          | Some marketVariation =>
              let props :=
                set_field "marketVariation" (strip_analyzer marketVariation)
                  props in
              match get_field "brand" props with
              | None | Some JNull => None
              | Some brand =>
                  Some (JObj (set_field "brand" (strip_analyzer brand) props))
              end
          end
      end
  | _ => None
  end.

(** The same on the value of [body[sourceIndex].mappings]. *)
Definition adjust_mappings (mappings : value) : option value :=
  match mappings with
  | JObj ms =>
      match get_field "properties" ms with
      | Some properties =>
          option_map (fun adjusted => JObj (set_field "properties" adjusted ms))
                     (adjust_properties properties)
      | None => None
      end
  | _ => None
  end.

(** [sourceMapping.body[sourceIndex].mappings] after lines 76-79. *)
Definition adjusted_mappings (body : obj) (sourceIndex : string)
    : option value :=
  match get_field sourceIndex body with
  | Some (JObj entry) =>
      match get_field "mappings" entry with
      | Some mappings => adjust_mappings mappings
      | None => None
      end
  | _ => None
  end.

(** The answers of the three calls of the step: [getMapping] gives [None]
    for a response without [body]; [create index mappings] answers the
    creation request. *)
Record indices : Type := {
  exists_index : call bool;
  getMapping : call (option obj);
  create : string -> value -> call unit
}.

Inductive step : Type :=
| Noted (text : string)
| CreateAsked (index : string) (mappings : value).

(** Lines 65-89: the settlement of the step and what it did. *)
Definition provision (i : indices) (sourceIndex targetIndex : string)
    : call unit * list step :=
  match exists_index i with
  | Rejects e => (Rejects e, [])
  | Resolves true => (Resolves tt, [])
  | Resolves false =>
      let creating := Noted "Target index does not exist. Creating..." in
      match getMapping i with
      | Rejects e => (Rejects e, [creating])
      | Resolves None =>
          (Rejects (plain_error "Invalid mapping response from OpenSearch"),
           [creating])
      | Resolves (Some body) =>
          match adjusted_mappings body sourceIndex with
          | None => (Rejects TypeError, [creating])
          | Some mappings =>
              let asked :=
                [creating; Noted "Creating target index with mapping";
                 CreateAsked targetIndex mappings] in
              match create i targetIndex mappings with
              | Rejects e => (Rejects e, asked)
              | Resolves _ =>
                  (Resolves tt, asked ++ [Noted "Created target index"])
              end
          end
      end
  end.

(** [value.key] when [value] is an object, nothing otherwise. *)
Definition member (key : string) (v : value) : option value :=
  match v with
  | JObj fields => get_field key fields
  | _ => None
  end.

(** A property that is there and is not null. *)
Definition present (key : string) (props : obj) : Prop :=
  exists v, get_field key props = Some v /\ v <> JNull.

End Provision.

(** ** A source mapping for the examples *)

Module Samples.
Import Json Cluster Provision.

Definition text_property (extra : obj) : value :=
  JObj (("type", JStr "text") :: extra).

Definition product_properties : obj :=
  [("brand", text_property [("analyzer", JStr "standard")]);
   ("jsonPayload",
    text_property [("fields", JObj [("keyword", JObj [("type", JStr "keyword")])])]);
   ("marketVariation", text_property [("analyzer", JStr "standard")]);
   ("title", text_property [])].

Definition mapping_body (properties : obj) : obj :=
  [("products", JObj [("mappings", JObj [("properties", JObj properties)])])].

(** The target index is missing, the source answers with [body], the
    creation goes through. *)
Definition missing_target (body : obj) : indices :=
  {| exists_index := Resolves false;
     getMapping := Resolves (Some body);
     create := fun _ _ => Resolves tt |}.

End Samples.

(** ** Pages *)

Module Paging.
Import Cluster.

(** The pages a batch loop works on: those before the first empty one. *)
Fixpoint consumed (pages : list (list hit)) : list (list hit) :=
  match pages with
  | [] => []
  | [] :: _ => []
  | page :: rest => page :: consumed rest
  end.

(** A source that answers every call of a pass, its documents in [pages]
    (the first page for [search], the others for the [scroll] calls). *)
Definition serves (w : world) (first : list hit) (rest : list (list hit))
    : Prop :=
  (exists total, source_count w = Resolves (Some total)) /\
  provisioning w = Resolves tt /\
  source_search w = Resolves (Some first) /\
  source_scroll w = map (fun page => Resolves (Some page)) rest /\
  source_clearScroll w = Resolves tt.

(** The records of a page that decode. *)
Definition decodable (w : world) (documents : list hit) : list hit :=
  List.filter
    (fun doc => match decode w doc with Some _ => true | None => false end)
    documents.

(** The two lines the differential script queues for a record (lines
    382-385), none for a record that does not decode. *)
Definition update_lines (w : world) (targetIndex : string) (doc : hit)
    : list bulk_line :=
  match decode w doc with
  | Some source => [UpdateAction targetIndex (_id doc); UpsertLine source]
  | None => []
  end.

(** The bulk requests a batch makes for the lines it has queued: one, or
    none when there is nothing to write. *)
Definition requests (operations : list bulk_line) : list (list bulk_line) :=
  match operations with
  | [] => []
  | _ :: _ => [operations]
  end.

End Paging.

(** ** The steps of a pass of the throttled script

    Every change a pass makes to its state is one of these: a line, a
    request or a scroll call added to the trace, a counter raised, a wait of
    the current delay, the delay doubled under its cap. *)

Module ThrottledSteps.
Import Cluster Throttled.

Inductive moves : state -> state -> Prop :=
| moves_refl (st : state) : moves st st
| moves_trans (a b c : state) : moves a b -> moves b c -> moves a c
| moves_log (lv : level) (text : string) (cause : option js_error)
    (st : state) : moves st (emit (Logged lv text cause) st)
| moves_scroll (st : state) : moves st (emit ScrollAsked st)
| moves_send (operations : list bulk_line) (st : state) :
    moves st (send_bulk operations st)
| moves_failed (n : nat) (st : state) : moves st (add_failed n st)
| moves_processed (n : nat) (st : state) : moves st (add_processed n st)
| moves_wait (st : state) : moves st (emit (Waited (delay st)) st)
| moves_backoff (st : state) : moves st (set_delay (backoff (delay st)) st).

(** The delay is within its bounds and no wait made so far was longer; the
    waits have not decreased. *)
Definition steady (st : state) : Prop :=
  BASE_DELAY <= delay st <= MAX_DELAY /\
  Forall (fun ms => ms <= delay st) (waits (trace st)) /\
  StronglySorted Z.le (waits (trace st)).

End ThrottledSteps.

(** * Properties

    ** Serialisation is unambiguous *)

Section SerializeFacts.
Import Json Decoder.

(** Induction with the hypothesis on every nested value. *)
Lemma value_nested_ind (P : value -> Prop) :
  P JNull ->
  (forall b, P (JBool b)) ->
  (forall n, P (JNum n)) ->
  (forall s, P (JStr s)) ->
  (forall items, Forall P items -> P (JArr items)) ->
  (forall fields, Forall (fun kv => P (snd kv)) fields -> P (JObj fields)) ->
  forall v, P v.
Proof.
  intros Hnull Hbool Hnum Hstr Harr Hobj.
  fix IH 1. intros [ | b | n | s | items | fields ].
  - exact Hnull.
  - apply Hbool.
  - apply Hnum.
  - apply Hstr.
  - apply Harr. induction items as [ | x xs IHxs ]; constructor.
    + apply IH.
    + exact IHxs.
  - apply Hobj. induction fields as [ | [k x] xs IHxs ]; constructor.
    + apply IH.
    + exact IHxs.
Qed.


Lemma unescape_escape (c : ascii) (k : list ascii) :
  unescape (escape c ++ k) = Some (c, k).
Proof.
  destruct c as [[] [] [] [] [] [] [] []]; reflexivity.
Qed.

Lemma unescape_quote (k : list ascii) : unescape (quote_char :: k) = None.
Proof. reflexivity. Qed.

Lemma escape_all_inj (s1 : string) :
  forall (s2 : string) (k1 k2 : list ascii),
    escape_all s1 ++ quote_char :: k1 = escape_all s2 ++ quote_char :: k2 ->
    s1 = s2 /\ k1 = k2.
Proof.
  induction s1 as [ | c1 s1 IH ]; intros [ | c2 s2 ] k1 k2 H; simpl in H.
  - injection H as ->. split; reflexivity.
  - rewrite <- app_assoc in H. apply (f_equal unescape) in H.
    rewrite unescape_escape, unescape_quote in H. discriminate.
  - rewrite <- app_assoc in H. apply (f_equal unescape) in H.
    rewrite unescape_escape, unescape_quote in H. discriminate.
  - rewrite <- !app_assoc in H. apply (f_equal unescape) in H.
    rewrite !unescape_escape in H. injection H as -> H.
    destruct (IH _ _ _ H) as [-> ->]. split; reflexivity.
Qed.

Lemma quote_inj (s1 s2 : string) (k1 k2 : list ascii) :
  quote s1 ++ k1 = quote s2 ++ k2 -> s1 = s2 /\ k1 = k2.
Proof.
  unfold quote. simpl. rewrite <- !app_assoc. simpl.
  intros H. injection H as H. exact (escape_all_inj _ _ _ _ H).
Qed.

Lemma digits_inj (d1 : Decimal.uint) :
  forall (d2 : Decimal.uint) (k1 k2 : list ascii),
    ends_numeral k1 = true -> ends_numeral k2 = true ->
    digits d1 ++ k1 = digits d2 ++ k2 -> d1 = d2 /\ k1 = k2.
Proof.
  induction d1 as [ | d1 IH | d1 IH | d1 IH | d1 IH | d1 IH | d1 IH
                  | d1 IH | d1 IH | d1 IH | d1 IH ];
    intros [ | d2 | d2 | d2 | d2 | d2 | d2 | d2 | d2 | d2 | d2 ] k1 k2 E1 E2 H;
    simpl in H;
    try discriminate H;
    try (injection H as H; destruct (IH _ _ _ E1 E2 H) as [-> ->];
         split; reflexivity);
    try (subst; simpl in *; discriminate).
  split; [ reflexivity | exact H ].
Qed.

Lemma to_int_digits (n : Z) :
  match Z.to_int n with
  | Decimal.Pos d | Decimal.Neg d => d <> Decimal.Nil
  end.
Proof.
  destruct n as [ | p | p ]; simpl.
  - discriminate.
  - apply DecimalPos.Unsigned.to_uint_nonnil.
  - apply DecimalPos.Unsigned.to_uint_nonnil.
Qed.

Lemma digits_head (d : Decimal.uint) :
  d <> Decimal.Nil ->
  exists c r, digits d = c :: r /\ is_digit c = true.
Proof.
  destruct d; intros Hd; try (exfalso; apply Hd; reflexivity);
    simpl; eexists _, _; (split; [ reflexivity | reflexivity ]).
Qed.

Lemma numeral_head (n : Z) :
  exists c r, numeral n = c :: r /\ (is_digit c = true \/ c = "-"%char).
Proof.
  unfold numeral. pose proof (to_int_digits n) as Hd.
  destruct (Z.to_int n) as [ d | d ].
  - destruct (digits_head d Hd) as (c & r & -> & Hc). eauto.
  - eauto.
Qed.

Lemma numeral_inj (n1 n2 : Z) (k1 k2 : list ascii) :
  ends_numeral k1 = true -> ends_numeral k2 = true ->
  numeral n1 ++ k1 = numeral n2 ++ k2 -> n1 = n2 /\ k1 = k2.
Proof.
  intros E1 E2. unfold numeral.
  pose proof (to_int_digits n1) as H1. pose proof (to_int_digits n2) as H2.
  destruct (Z.to_int n1) as [ d1 | d1 ] eqn:T1;
    destruct (Z.to_int n2) as [ d2 | d2 ] eqn:T2; intros H.
  - destruct (digits_inj _ _ _ _ E1 E2 H) as [-> ->].
    split; [ | reflexivity ]. apply DecimalZ.to_int_inj. congruence.
  - destruct (digits_head d1 H1) as (c & r & Ec & Hc).
    rewrite Ec in H. simpl in H. injection H as -> _. discriminate.
  - destruct (digits_head d2 H2) as (c & r & Ec & Hc).
    rewrite Ec in H. simpl in H. injection H as <- _. discriminate.
  - simpl in H. injection H as H.
    destruct (digits_inj _ _ _ _ E1 E2 H) as [-> ->].
    split; [ | reflexivity ]. apply DecimalZ.to_int_inj. congruence.
Qed.

(** Parts joined by commas up to a closing bracket can be read back one by
    one, when each part can and no part starts with the bracket. *)
Section Joined.
Context {A : Type} (enc : A -> list ascii) (closer : ascii).
Hypothesis closer_stops : is_digit closer = false.
Hypothesis closer_not_comma : closer <> ","%char.
Hypothesis enc_head : forall a, exists c r, enc a = c :: r /\ c <> closer.

Let readable (a : A) : Prop :=
  forall a' k k',
    ends_numeral k = true -> ends_numeral k' = true ->
    enc a ++ k = enc a' ++ k' -> a = a' /\ k = k'.

Lemma join_commas_head (a : A) (l : list A) :
  exists c r, join_commas (map enc (a :: l)) = c :: r /\ c <> closer.
Proof.
  destruct (enc_head a) as (c & r & E & Hc).
  destruct l as [ | b l ]; cbn [map join_commas]; rewrite E.
  - eauto.
  - exists c, (r ++ ","%char :: join_commas (enc b :: map enc l)).
    split; [ reflexivity | exact Hc ].
Qed.

Lemma join_commas_inj (l : list A) :
  Forall readable l ->
  forall l' k k',
    join_commas (map enc l) ++ closer :: k =
    join_commas (map enc l') ++ closer :: k' ->
    l = l' /\ k = k'.
Proof.
  induction 1 as [ | a l Ha Hl IH ]; intros [ | a' l' ] k k' H.
  - simpl in H. injection H as ->. split; reflexivity.
  - destruct (join_commas_head a' l') as (c & r & E & Hc).
    rewrite E in H. simpl in H. injection H as <- _. contradiction.
  - destruct (join_commas_head a l) as (c & r & E & Hc).
    rewrite E in H. simpl in H. injection H as -> _. contradiction.
  - assert (Hstop : forall x, ends_numeral (closer :: x) = true)
      by (intros x; simpl; rewrite closer_stops; reflexivity).
    assert (Hcomma : forall x, ends_numeral (","%char :: x) = true)
      by reflexivity.
    destruct l as [ | b l ]; destruct l' as [ | b' l' ];
      cbn [map join_commas] in H; rewrite <- ?app_assoc in H;
      cbn [app] in H.
    + destruct (Ha _ _ _ (Hstop _) (Hstop _) H) as [-> Hk].
      injection Hk as ->. split; reflexivity.
    + destruct (Ha _ _ _ (Hstop _) (Hcomma _) H) as [_ Hk].
      injection Hk as Hk _. contradiction.
    + destruct (Ha _ _ _ (Hcomma _) (Hstop _) H) as [_ Hk].
      injection Hk as Hk _. symmetry in Hk. contradiction.
    + destruct (Ha _ _ _ (Hcomma _) (Hcomma _) H) as [-> Hk].
      injection Hk as Hk.
      destruct (IH (b' :: l') k k' Hk) as [-> ->]. split; reflexivity.
Qed.
End Joined.

Lemma serialize_head (v : value) :
  exists c r, serialize v = c :: r /\ c <> "]"%char.
Proof.
  destruct v as [ | [] | n | s | items | fields ]; simpl;
    try (eexists _, _; split; [ reflexivity | discriminate ]).
  destruct (numeral_head n) as (c & r & -> & [Hc | ->]);
    exists c, r || eexists _, _; (split; [ reflexivity | ]).
  - intros ->. discriminate.
  - discriminate.
Qed.

Lemma serialize_inj_follow (v : value) :
  forall v' k k',
    ends_numeral k = true -> ends_numeral k' = true ->
    serialize v ++ k = serialize v' ++ k' -> v = v' /\ k = k'.
Proof.
  induction v as [ | b | n | s | items IH | fields IH ] using value_nested_ind;
    intros [ | b' | n' | s' | items' | fields' ] k k' E E' H;
    try (destruct b); try (destruct b');
    try (simpl in H; discriminate H);
    try (simpl in H; injection H as ->; split; reflexivity);
    try (destruct (numeral_head n) as (c & r & Ec & [Hc | Hc]);
         simpl in H; rewrite Ec in H; simpl in H; injection H as -> _;
         discriminate);
    try (destruct (numeral_head n') as (c & r & Ec & [Hc | Hc]);
         simpl in H; rewrite Ec in H; simpl in H; injection H as <- _;
         discriminate).
  - destruct (numeral_inj _ _ _ _ E E' H) as [-> ->]. split; reflexivity.
  - destruct (quote_inj _ _ _ _ H) as [-> ->]. split; reflexivity.
  - simpl in H. injection H as H. rewrite <- !app_assoc in H. simpl in H.
    apply (join_commas_inj serialize "]"%char) in H;
      [ | reflexivity | discriminate | exact serialize_head | exact IH ].
    destruct H as [-> ->]. split; reflexivity.
  - simpl in H. injection H as H. rewrite <- !app_assoc in H. simpl in H.
    apply (join_commas_inj
             (fun kv : string * value =>
                quote (fst kv) ++ ":"%char :: serialize (snd kv))
             "}"%char) in H.
    + destruct H as [-> ->]. split; reflexivity.
    + reflexivity.
    + discriminate.
    + intros kv. eexists _, _. split; [ reflexivity | discriminate ].
    + clear H. induction IH as [ | [key x] fs Hx _ IHfs ]; constructor.
      * intros [key' x'] j j' Ej Ej' Hj. cbn [fst snd] in Hj.
        rewrite <- !app_assoc in Hj.
        destruct (quote_inj _ _ _ _ Hj) as [-> Hj'].
        cbn [app] in Hj'. injection Hj' as Hj'.
        cbn [snd] in Hx.
        destruct (Hx _ _ _ Ej Ej' Hj') as [<- <-]. split; reflexivity.
      * exact IHfs.
Qed.

Lemma serialize_inj (v v' : value) : serialize v = serialize v' -> v = v'.
Proof.
  intros H.
  apply (serialize_inj_follow v v' [] []); [ reflexivity | reflexivity | ].
  rewrite !app_nil_r. exact H.
Qed.

Lemma JSON_stringify_inj (v v' : value) :
  JSON_stringify v = JSON_stringify v' -> v = v'.
Proof.
  unfold JSON_stringify. intros H. apply serialize_inj.
  apply (f_equal list_ascii_of_string) in H.
  rewrite !list_ascii_of_string_of_list_ascii in H. exact H.
Qed.

End SerializeFacts.

(** ** Deep equality *)

Section DeepEqualFacts.
Import Json.

Lemma get_field_unique (fs : obj) :
  NoDup (map fst fs) ->
  forall k v, In (k, v) fs -> get_field k fs = Some v.
Proof.
  induction fs as [ | [k0 v0] fs IH ]; intros Hnd k v Hin.
  - destruct Hin.
  - simpl in Hnd. apply NoDup_cons in Hnd as [Hfresh Hnd]. simpl.
    destruct Hin as [E | Hin].
    + injection E as -> ->. rewrite String.eqb_refl. reflexivity.
    + destruct (String.eqb_spec k0 k) as [-> | Hne].
      * exfalso. apply Hfresh. apply list_elem_of_In.
        apply in_map_iff. exists (k, v). split; [ reflexivity | exact Hin ].
      * apply IH; assumption.
Qed.

Lemma deep_equal_refl (v : value) :
  keys_unique v = true -> deep_equal v v = true.
Proof.
  induction v as [ | b | n | s | items IH | fields IH ] using value_nested_ind;
    intros Hu.
  - reflexivity.
  - destruct b; reflexivity.
  - simpl. apply Z.eqb_refl.
  - simpl. apply String.eqb_refl.
  - simpl in Hu. cbn [deep_equal].
    induction IH as [ | x xs Hx _ IHxs ]; [ reflexivity | ].
    simpl in Hu. apply andb_true_iff in Hu as [Hux Huxs].
    rewrite (Hx Hux). simpl. exact (IHxs Huxs).
  - simpl in Hu. apply andb_true_iff in Hu as [Hnd Hu].
    apply bool_decide_eq_true in Hnd.
    cbn [deep_equal]. rewrite Nat.eqb_refl. simpl.
    apply forallb_forall. intros [k x] Hin. cbn [fst snd].
    rewrite (get_field_unique fields Hnd k x Hin).
    rewrite Forall_forall in IH. rewrite forallb_forall in Hu.
    apply (IH (k, x)); [ apply list_elem_of_In; exact Hin | ].
    exact (Hu (k, x) Hin).
Qed.

End DeepEqualFacts.

(** ** The change detector *)

Section ChangeDetector.
Import Json Cluster Fixtures.

Lemma changed_verdict_false (answer : call get_response) (newData : obj) :
  fst (Differential.changed_verdict answer newData) = false <->
  exists existingData,
    answer = Resolves (BodyWithSource existingData) /\
    JSON_stringify (JObj existingData) = JSON_stringify (JObj newData).
Proof.
  unfold Differential.changed_verdict. split.
  - destruct answer as [ [ | | existingData ] | e ];
      try (simpl; discriminate).
    + destruct (String.eqb (JSON_stringify (JObj existingData))
                  (JSON_stringify (JObj newData))) eqn:E; simpl;
        [ | discriminate ].
      intros _. exists existingData. split; [ reflexivity | ].
      apply String.eqb_eq. exact E.
    + destruct (statusCode e) as [ code | ];
        [ destruct (code =? 404) | ]; simpl; discriminate.
  - intros (existingData & -> & E). rewrite E, String.eqb_refl. reflexivity.
Qed.

Lemma hasDocumentChanged_verdict (w : world) (index docId : string)
    (newData : obj) (st : Differential.state) :
  fst (Differential.hasDocumentChanged w index docId newData st) =
  fst (Differential.changed_verdict
         (target_get w (Differential.getCalls st) index docId) newData).
Proof.
  unfold Differential.hasDocumentChanged.
  destruct (Differential.changed_verdict _ _) as [verdict [ e | ]];
    reflexivity.
Qed.

(** C10.  [hasDocumentChanged] answers [false] exactly when the fetch gave a
    stored document whose JSON text is the text of the candidate; and there
    are two deeply equal documents, with their keys in another order, for
    which it answers [true]. *)
Theorem hasDocumentChanged_compares_json_text :
  (forall (w : world) (index docId : string) (newData : obj)
          (st : Differential.state),
      fst (Differential.hasDocumentChanged w index docId newData st) = false <->
      exists existingData,
        target_get w (Differential.getCalls st) index docId =
          Resolves (BodyWithSource existingData) /\
        JSON_stringify (JObj existingData) = JSON_stringify (JObj newData))
  /\
  (exists existingData newData : obj,
      deep_equal (JObj existingData) (JObj newData) = true /\
      map fst existingData <> map fst newData /\
      forall (w : world) (index docId : string) (st : Differential.state),
        target_get w (Differential.getCalls st) index docId =
          Resolves (BodyWithSource existingData) ->
        fst (Differential.hasDocumentChanged w index docId newData st) = true).
Proof.
  split.
  - intros w index docId newData st.
    rewrite hasDocumentChanged_verdict. apply changed_verdict_false.
  - exists [("brand", JStr "acme"); ("price", JNum 7)],
           [("price", JNum 7); ("brand", JStr "acme")].
    split; [ reflexivity | ].
    split; [ intros H; simpl in H; discriminate H | ].
    intros w index docId st Hget.
    rewrite hasDocumentChanged_verdict, Hget. reflexivity.
Qed.

(** C5, as stated, fails: the target stores [{a: 1, b: 2}], the candidate is
    [{b: 2, a: 1}]; the two are deeply equal and the detector answers
    [true]. *)
Lemma hasDocumentChanged_equal_but_reordered :
  let stored := [("a", JNum 1); ("b", JNum 2)] in
  let candidate := [("b", JNum 2); ("a", JNum 1)] in
  let w := with_get (fun _ _ _ => Resolves (BodyWithSource stored)) (calm []) in
  deep_equal (JObj candidate) (JObj stored) = true /\
  fst (Differential.hasDocumentChanged w "target" "doc-1" candidate
         Differential.initial) = true.
Proof. split; reflexivity. Qed.

(** C5, amended.  [hasDocumentChanged] answers [false] for a candidate
    identical to the stored document, key order included; it answers [true]
    when the fetch is rejected, with status 404 or with any other error, and
    whenever the candidate differs from the stored document, in particular
    when the two are not deeply equal. *)
Theorem hasDocumentChanged_answers :
  forall (w : world) (index docId : string) (newData : obj)
         (st : Differential.state),
    let answer := target_get w (Differential.getCalls st) index docId in
    let verdict :=
      fst (Differential.hasDocumentChanged w index docId newData st) in
    (answer = Resolves (BodyWithSource newData) -> verdict = false) /\
    (forall e, answer = Rejects e -> verdict = true) /\
    (forall existingData,
        answer = Resolves (BodyWithSource existingData) ->
        existingData <> newData -> verdict = true) /\
    (forall existingData,
        answer = Resolves (BodyWithSource existingData) ->
        keys_unique (JObj existingData) = true ->
        deep_equal (JObj existingData) (JObj newData) = false ->
        verdict = true).
Proof.
  intros w index docId newData st answer verdict.
  assert (Hdiff : forall existingData,
             answer = Resolves (BodyWithSource existingData) ->
             existingData <> newData -> verdict = true).
  { intros existingData Hget Hne. subst verdict.
    destruct (fst (Differential.hasDocumentChanged w index docId newData st))
      eqn:Hv; [ reflexivity | exfalso ].
    rewrite hasDocumentChanged_verdict in Hv.
    apply changed_verdict_false in Hv as (stored & Hget' & Htext).
    fold answer in Hget'. rewrite Hget in Hget'. injection Hget' as <-.
    apply JSON_stringify_inj in Htext. injection Htext as Htext.
    exact (Hne Htext). }
  repeat split.
  - intros Hget. subst verdict. rewrite hasDocumentChanged_verdict.
    apply changed_verdict_false. exists newData. split; [ exact Hget | ].
    reflexivity.
  - intros e Hget. subst verdict. rewrite hasDocumentChanged_verdict.
    fold answer. rewrite Hget. unfold Differential.changed_verdict.
    destruct (statusCode e) as [ code | ]; [ destruct (code =? 404) | ];
      reflexivity.
  - exact Hdiff.
  - intros existingData Hget Hu Hdeep. apply (Hdiff existingData Hget).
    intros ->. rewrite (deep_equal_refl _ Hu) in Hdeep. discriminate.
Qed.

(** The four cases on concrete documents. *)
Lemma hasDocumentChanged_answers_witness :
  let stored := [("a", JNum 1); ("b", JNum 2)] in
  let w := with_get (fun _ _ _ => Resolves (BodyWithSource stored)) (calm []) in
  fst (Differential.hasDocumentChanged w "target" "doc-1" stored
         Differential.initial) = false /\
  fst (Differential.hasDocumentChanged (calm []) "target" "doc-1" stored
         Differential.initial) = true /\
  fst (Differential.hasDocumentChanged w "target" "doc-1" [("a", JNum 1)]
         Differential.initial) = true /\
  fst (Differential.hasDocumentChanged w "target" "doc-1"
         [("a", JNum 1); ("b", JNum 3)] Differential.initial) = true.
Proof.
  intros stored w. split; [ | split; [ | split ] ].
  - destruct (hasDocumentChanged_answers w "target" "doc-1" stored
                Differential.initial) as (H & _).
    apply H. reflexivity.
  - destruct (hasDocumentChanged_answers (calm []) "target" "doc-1" stored
                Differential.initial) as (_ & H & _).
    apply (H not_found). reflexivity.
  - destruct (hasDocumentChanged_answers w "target" "doc-1" [("a", JNum 1)]
                Differential.initial) as (_ & _ & H & _).
    apply (H stored); [ reflexivity | ]. intros E. discriminate E.
  - destruct (hasDocumentChanged_answers w "target" "doc-1"
                [("a", JNum 1); ("b", JNum 3)] Differential.initial)
      as (_ & _ & _ & H).
    apply (H stored); reflexivity.
Defined.

End ChangeDetector.

(** ** The bulk body of the restart and throttled scripts *)

Section IndexOperations.
Import Json Cluster Target Fixtures.

Lemma index_operations_cons (w : world) (targetIndex : string) (doc : hit)
    (documents : list hit) :
  index_operations w targetIndex (doc :: documents) =
  IndexAction targetIndex (_id doc)
  :: SourceLine (match decode w doc with
                 | Some source => source
                 | None => _source doc
                 end)
  :: index_operations w targetIndex documents.
Proof. reflexivity. Qed.

(** Every record of the page has its action in the body, decoded or not. *)
Lemma index_operations_ids (w : world) (targetIndex : string)
    (documents : list hit) :
  action_ids (index_operations w targetIndex documents) = map _id documents.
Proof.
  induction documents as [ | doc documents IH ]; [ reflexivity | ].
  rewrite index_operations_cons. simpl. rewrite IH. reflexivity.
Qed.

Lemma index_operations_length (w : world) (targetIndex : string)
    (documents : list hit) :
  length (index_operations w targetIndex documents) =
  (2 * length documents)%nat.
Proof.
  induction documents as [ | doc documents IH ]; [ reflexivity | ].
  rewrite index_operations_cons. simpl. rewrite IH. lia.
Qed.

(** C1, on the code: the page of the end-to-end scenario.  Record [c] does
    not decode and is counted failed once, yet the one bulk request of the
    batch carries the three records, [c] with its raw text. *)
Theorem undecodable_record_is_still_sent :
  let w := calm [page_abc] in
  let operations := index_operations w "target" page_abc in
  let throttled := Throttled.batch w "target" page_abc Throttled.initial in
  let restart := Restart.batch w "target" page_abc Restart.initial in
  undecodable w page_abc = [doc_c] /\
  action_ids operations = ["a"; "b"; "c"] /\
  In (SourceLine (_source doc_c)) operations /\
  Throttled.failedDocs throttled = 1%nat /\
  bulks (Throttled.trace throttled) = [operations] /\
  Restart.failedDocs (state_of restart) = 1%nat /\
  bulks (Restart.trace (state_of restart)) = [operations].
Proof.
  repeat split; try reflexivity.
  vm_compute. right. right. right. right. right. left. reflexivity.
Qed.

Lemma bulk_pairs_ind (P : list bulk_line -> Prop) :
  P [] ->
  (forall x, P [x]) ->
  (forall x y rest, P rest -> P (x :: y :: rest)) ->
  forall body, P body.
Proof.
  intros Hnil Hone Hstep body.
  assert (H : P body /\ forall x, P (x :: body)).
  { induction body as [ | y body [IH1 IH2] ].
    - split; [ exact Hnil | exact Hone ].
    - split; [ apply IH2 | ]. intros x. apply Hstep. exact IH1. }
  exact (proj1 H).
Qed.

Section Applied.
Variable refuses : string -> string -> obj -> bool.

Lemma apply_bulk_lookup (body : list bulk_line) :
  forall c c1 : collection,
    apply_bulk refuses body c = Some c1 ->
    forall key,
      c1 !! key = match last_write refuses key body with
                  | Some source => Some source
                  | None => c !! key
                  end.
Proof.
  induction body as [ | x | x y rest IH ] using bulk_pairs_ind;
    intros c c1 H key.
  - injection H as <-. reflexivity.
  - destruct x; discriminate H.
  - destruct x as [ index id | | | ]; try discriminate H.
    destruct y as [ | source | | ]; try discriminate H.
    cbn [apply_bulk] in H. cbn [last_write].
    rewrite (IH _ _ H key).
    destruct (last_write refuses key rest); [ reflexivity | ].
    destruct (refuses index id source); [ reflexivity | ].
    destruct (decide ((index, id) = key)) as [ <- | Hne ].
    + apply lookup_insert_eq.
    + apply lookup_insert_ne. exact Hne.
Qed.

Lemma apply_bulk_defined (body : list bulk_line) :
  forall c c1 : collection,
    apply_bulk refuses body c = Some c1 ->
    forall c' : collection, is_Some (apply_bulk refuses body c').
Proof.
  induction body as [ | x | x y rest IH ] using bulk_pairs_ind;
    intros c c1 H c'.
  - eexists. reflexivity.
  - destruct x; discriminate H.
  - destruct x as [ index id | | | ]; try discriminate H.
    destruct y as [ | source | | ]; try discriminate H.
    cbn [apply_bulk] in *. exact (IH _ _ H _).
Qed.

Lemma apply_bulk_twice (body : list bulk_line) (c c1 : collection) :
  apply_bulk refuses body c = Some c1 ->
  apply_bulk refuses body c1 = Some c1.
Proof.
  intros H. destruct (apply_bulk_defined body c c1 H c1) as [c2 H2].
  rewrite H2. f_equal. apply map_eq. intros key.
  rewrite (apply_bulk_lookup body c1 c2 H2 key).
  rewrite (apply_bulk_lookup body c c1 H key).
  destruct (last_write refuses key body); reflexivity.
Qed.

Lemma index_operations_apply (w : world) (targetIndex : string)
    (documents : list hit) :
  forall c : collection,
    is_Some (apply_bulk refuses (index_operations w targetIndex documents) c).
Proof.
  induction documents as [ | doc documents IH ]; intros c.
  - eexists. reflexivity.
  - rewrite index_operations_cons. cbn [apply_bulk]. apply IH.
Qed.
End Applied.

(** C6.  Every action of the body built from a page carries the identifier
    of its record; the body can always be applied, and applying it to the
    collection it has produced changes nothing: a second application leaves
    the state of the first. *)
Theorem index_batch_replay_is_idempotent
    (refuses : string -> string -> obj -> bool) (w : world)
    (targetIndex : string) (documents : list hit) (c : collection) :
  action_ids (index_operations w targetIndex documents) = map _id documents /\
  exists c1 : collection,
    apply_bulk refuses (index_operations w targetIndex documents) c = Some c1 /\
    apply_bulk refuses (index_operations w targetIndex documents) c1 = Some c1.
Proof.
  split; [ apply index_operations_ids | ].
  destruct (index_operations_apply refuses w targetIndex documents c)
    as [c1 H].
  exists c1. split; [ exact H | ]. exact (apply_bulk_twice refuses _ _ _ H).
Qed.

(** The scenario page on an empty collection: [a] and [b] are stored
    decoded; [c], sent with its raw text, is stored as well. *)
Lemma index_batch_replay_scenario :
  let body := index_operations (calm [page_abc]) "target" page_abc in
  exists c1 : collection,
    apply_bulk (fun _ _ _ => false) body ∅ = Some c1 /\
    apply_bulk (fun _ _ _ => false) body c1 = Some c1 /\
    c1 !! ("target", "a") =
      Some [("title", JStr "first"); ("jsonPayload", JObj [("n", JNum 1)])] /\
    c1 !! ("target", "c") = Some (_source doc_c).
Proof.
  intros body.
  destruct (index_batch_replay_is_idempotent (fun _ _ _ => false)
              (calm [page_abc]) "target" page_abc ∅) as (_ & c1 & H1 & H2).
  exists c1. split; [ exact H1 | ]. split; [ exact H2 | ].
  split.
  - rewrite (apply_bulk_lookup _ _ _ _ H1). reflexivity.
  - rewrite (apply_bulk_lookup _ _ _ _ H1). reflexivity.
Defined.

End IndexOperations.

(** ** Traces *)

Section TraceFacts.
Import Cluster.

Lemma waits_app (a b : list event) : waits (a ++ b) = waits a ++ waits b.
Proof.
  induction a as [ | e a IH ]; [ reflexivity | ].
  destruct e; simpl; rewrite IH; reflexivity.
Qed.

Lemma bulks_app (a b : list event) : bulks (a ++ b) = bulks a ++ bulks b.
Proof.
  induction a as [ | e a IH ]; [ reflexivity | ].
  destruct e; simpl; rewrite IH; reflexivity.
Qed.

Lemma last_of_two {A : Type} (l : list A) (a b : A) :
  last (l ++ [a; b]) = Some b.
Proof.
  change (l ++ [a; b]) with (l ++ ([a] ++ [b])).
  rewrite app_assoc. apply last_snoc.
Qed.

Lemma causes_app (a b : list event) : causes (a ++ b) = causes a ++ causes b.
Proof.
  induction a as [ | e a IH ]; [ reflexivity | ].
  destruct e as [ [] text [ cause | ] | | | | ]; simpl; rewrite IH;
    reflexivity.
Qed.

End TraceFacts.

(** ** The throttled script: retries and pacing *)

Section ThrottledFacts.
Import Json Cluster Throttled Fixtures.

Lemma backoff_iter (d : Z) (j : nat) :
  d <= MAX_DELAY ->
  Nat.iter j backoff d = Z.min (d * 2 ^ Z.of_nat j) MAX_DELAY.
Proof.
  intros Hd. induction j as [ | j IH ].
  - simpl. unfold MAX_DELAY in *. lia.
  - rewrite Nat2Z.inj_succ, Z.pow_succ_r by lia.
    simpl. rewrite IH. unfold backoff, MAX_DELAY. lia.
Qed.

Lemma parse_failed_fold (l : list hit) :
  forall st,
    let st' := fold_left parse_failed l st in
    delay st' = delay st /\ bulkCalls st' = bulkCalls st /\
    processedDocs st' = processedDocs st /\
    failedDocs st' = (failedDocs st + length l)%nat /\
    waits (trace st') = waits (trace st) /\
    bulks (trace st') = bulks (trace st).
Proof.
  induction l as [ | doc l IH ]; intros st.
  - simpl. repeat split; lia.
  - simpl. destruct (IH (parse_failed st doc)) as (H1 & H2 & H3 & H4 & H5 & H6).
    rewrite H1, H2, H3, H4, H5, H6. simpl.
    rewrite waits_app, bulks_app. simpl. rewrite !app_nil_r.
    repeat split; lia.
Qed.

Lemma retry_later_trace (e : js_error) (st : state) :
  trace (retry_later e st) =
  trace st ++ [Logged ERROR "Bulk insert failed. Retrying..." (Some e);
               Waited (delay st)].
Proof. simpl. rewrite <- app_assoc. reflexivity. Qed.

(** [k] rejected calls in a row, within the budget. *)
Lemma rejected_run (w : world) (operations : list bulk_line) (k : nat) :
  forall (budget retries : nat) (st : state) (cause : nat -> js_error),
    (k <= budget)%nat ->
    (forall j, (j < k)%nat ->
       target_bulk w (bulkCalls st + j) operations = Rejects (cause j)) ->
    exists st',
      bulk_with_retry w operations budget retries st =
        bulk_with_retry w operations (budget - k) (retries + k) st' /\
      delay st' = Nat.iter k backoff (delay st) /\
      bulkCalls st' = (bulkCalls st + k)%nat /\
      failedDocs st' = failedDocs st /\
      processedDocs st' = processedDocs st /\
      waits (trace st') =
        waits (trace st) ++
        map (fun j => Nat.iter j backoff (delay st)) (seq 0 k) /\
      bulks (trace st') = bulks (trace st) ++ repeat operations k /\
      causes (trace st') = causes (trace st) ++ map cause (seq 0 k).
Proof.
  induction k as [ | k IH ]; intros budget retries st cause Hk Hrej.
  - exists st. rewrite Nat.sub_0_r, !Nat.add_0_r. simpl. rewrite !app_nil_r.
    repeat split; reflexivity.
  - destruct budget as [ | budget ]; [ lia | ].
    cbn [bulk_with_retry].
    pose proof (Hrej 0%nat ltac:(lia)) as H0. rewrite Nat.add_0_r in H0.
    rewrite H0.
    set (st1 := retry_later (cause 0%nat) (send_bulk operations st)).
    destruct (IH budget (S retries) st1 (fun j => cause (S j)))
      as (st' & Hrun & Hd & Hc & Hf & Hp & Hw & Hb & He).
    { lia. }
    { intros j Hj. subst st1. simpl.
      replace (S (bulkCalls st + j)) with (bulkCalls st + S j)%nat by lia.
      apply Hrej. lia. }
    exists st'. split; [ | split; [ | split; [ | split; [ | split;
                          [ | split; [ | split ] ] ] ] ] ].
    + rewrite Hrun. f_equal; lia.
    + rewrite Hd, Nat.iter_succ_r. reflexivity.
    + rewrite Hc. subst st1. simpl. lia.
    + rewrite Hf. reflexivity.
    + rewrite Hp. reflexivity.
    + rewrite Hw. subst st1. rewrite retry_later_trace, waits_app.
      cbn [send_bulk emit trace delay]. rewrite waits_app. simpl.
      rewrite app_nil_r, <- app_assoc. simpl. f_equal. f_equal.
      rewrite <- seq_shift, map_map. apply map_ext. intros j.
      rewrite Nat.iter_succ_r. reflexivity.
    + rewrite Hb. subst st1. rewrite retry_later_trace, bulks_app.
      cbn [send_bulk emit trace]. rewrite bulks_app. simpl.
      rewrite app_nil_r, <- app_assoc. reflexivity.
    + rewrite He. subst st1. rewrite retry_later_trace, causes_app.
      cbn [send_bulk emit trace]. rewrite causes_app. simpl.
      rewrite app_nil_r, <- app_assoc. simpl. f_equal. f_equal.
      rewrite <- seq_shift, map_map. reflexivity.
Qed.

(** Whatever the answers, the retry loop only adds to the trace. *)
Lemma bulk_with_retry_extends (w : world) (operations : list bulk_line)
    (budget : nat) :
  forall retries st,
    exists more,
      trace (bulk_with_retry w operations budget retries st) =
      trace st ++ more.
Proof.
  induction budget as [ | budget IH ]; intros retries st.
  - exists []. simpl. rewrite app_nil_r. reflexivity.
  - cbn [bulk_with_retry].
    destruct (target_bulk w (bulkCalls st) operations) as [ resp | e ].
    + destruct (errors resp); simpl; eexists; rewrite <- ?app_assoc;
        reflexivity.
    + destruct (IH (S retries) (retry_later e (send_bulk operations st)))
        as [more ->].
      rewrite retry_later_trace. simpl. eexists.
      rewrite <- !app_assoc. reflexivity.
Qed.

Lemma batch_trace (w : world) (targetIndex : string) (documents : list hit)
    (st : state) :
  let before :=
    fold_left parse_failed (undecodable w documents)
      (logInfo "Processing batch" st) in
  let after :=
    bulk_with_retry w (index_operations w targetIndex documents)
      MAX_RETRIES 0 before in
  trace (batch w targetIndex documents st) =
    trace after ++
    [Logged INFO "Waiting before fetching the next batch..." None;
     Waited (delay after)] /\
  delay (batch w targetIndex documents st) = delay after /\
  failedDocs (batch w targetIndex documents st) = failedDocs after /\
  delay before = delay st /\ bulkCalls before = bulkCalls st /\
  failedDocs before = (failedDocs st + length (undecodable w documents))%nat /\
  waits (trace before) = waits (trace st) /\
  bulks (trace before) = bulks (trace st).
Proof.
  intros before after.
  destruct (parse_failed_fold (undecodable w documents)
              (logInfo "Processing batch" st))
    as (H1 & H2 & H3 & H4 & H5 & H6).
  fold before in H1, H2, H3, H4, H5, H6.
  split; [ | split; [ | split; [ | split; [ | split; [ | split;
             [ | split ] ] ] ] ] ].
  - unfold batch. fold before. fold after. simpl.
    rewrite <- app_assoc. reflexivity.
  - reflexivity.
  - reflexivity.
  - rewrite H1. reflexivity.
  - rewrite H2. reflexivity.
  - rewrite H4. reflexivity.
  - rewrite H5. simpl. rewrite waits_app. simpl. apply app_nil_r.
  - rewrite H6. simpl. rewrite bulks_app. simpl. apply app_nil_r.
Qed.

(** C3, as stated, fails: the first bulk call of the first batch is
    rejected and the second resolves; the script waits 10000 ms before the
    second attempt, where the claim has [min (10000 * 2^1) 60000 = 20000]. *)
Lemma first_retry_waits_base_delay :
  let w := with_bulk (failing_first 1 ItemIndex) (calm [[doc_a]]) in
  let operations := index_operations w "target" [doc_a] in
  let st := batch w "target" [doc_a] initial in
  target_bulk w 0 operations = Rejects unreachable /\
  target_bulk w 1 operations = Resolves (accepted ItemIndex operations) /\
  length (bulks (trace st)) = 2%nat /\
  nth_error (waits (trace st)) 0 = Some 10000 /\
  Z.min (BASE_DELAY * 2 ^ 1) MAX_DELAY = 20000.
Proof. repeat split. Qed.

(** C3, amended.  In a batch of the throttled script whose first [k] bulk
    calls are rejected, [1 <= k <= MAX_RETRIES], the wait after the [k]-th
    rejection is [min (d * 2^(k-1)) MAX_DELAY], where [d] is the delay the
    batch starts with ([BASE_DELAY] until a bulk call of the pass has been
    rejected). *)
Theorem retry_delay_after_rejections (w : world) (targetIndex : string)
    (documents : list hit) (st : state) (k : nat) :
  (1 <= k <= MAX_RETRIES)%nat ->
  delay st <= MAX_DELAY ->
  (forall j, (j < k)%nat ->
     exists e,
       target_bulk w (bulkCalls st + j)
         (index_operations w targetIndex documents) = Rejects e) ->
  nth_error
    (drop (length (waits (trace st)))
       (waits (trace (batch w targetIndex documents st))))
    (k - 1) =
  Some (Z.min (delay st * 2 ^ Z.of_nat (k - 1)) MAX_DELAY).
Proof.
  intros Hk Hd Hrej.
  destruct (batch_trace w targetIndex documents st)
    as (Ht & _ & _ & Hdelay & Hcalls & _ & Hwaits & _).
  rewrite Ht. clear Ht.
  set (before := fold_left parse_failed (undecodable w documents)
                   (logInfo "Processing batch" st)) in *.
  set (operations := index_operations w targetIndex documents) in *.
  assert (Hcause : exists cause : nat -> js_error,
             forall j, (j < k)%nat ->
               target_bulk w (bulkCalls before + j) operations =
               Rejects (cause j)).
  { exists (fun j => match target_bulk w (bulkCalls st + j) operations with
                     | Rejects e => e
                     | Resolves _ => TypeError
                     end).
    intros j Hj. rewrite Hcalls. destruct (Hrej j Hj) as [e ->]. reflexivity. }
  destruct Hcause as [cause Hcause].
  destruct (rejected_run w operations k MAX_RETRIES 0 before cause
              ltac:(lia) Hcause)
    as (st' & Hrun & _ & _ & _ & _ & Hw & _ & _).
  rewrite Hrun.
  destruct (bulk_with_retry_extends w operations (MAX_RETRIES - k) (0 + k) st')
    as [more ->].
  rewrite <- app_assoc, waits_app, Hw, Hwaits, Hdelay, <- app_assoc.
  rewrite drop_app_length.
  rewrite nth_error_app1 by (rewrite length_map, length_seq; lia).
  rewrite nth_error_map.
  rewrite (nth_error_nth' _ 0%nat) by (rewrite length_seq; lia).
  rewrite seq_nth by lia. simpl. f_equal. apply backoff_iter. exact Hd.
Qed.

(** Four rejections in the first batch of a pass: the wait after the fourth
    is capped at [MAX_DELAY]. *)
Lemma retry_delay_after_rejections_witness :
  let w := with_bulk (failing_first 4 ItemIndex) (calm [[doc_a]]) in
  nth_error
    (drop (length (waits (trace initial)))
       (waits (trace (batch w "target" [doc_a] initial))))
    (4 - 1) =
  Some (Z.min (delay initial * 2 ^ Z.of_nat (4 - 1)) MAX_DELAY).
Proof.
  intros w.
  apply (retry_delay_after_rejections w "target" [doc_a] initial 4).
  - unfold MAX_RETRIES. lia.
  - vm_compute. discriminate.
  - intros j Hj. exists unreachable.
    do 4 (destruct j as [ | j ]; [ reflexivity | ]). lia.
Defined.

(** *** An invariant of the delay and of the waits of a pass

    [Q] holds of the delay and of every wait made so far, and survives the
    doubling wherever the world rejects a bulk call. *)
Section Pacing.
Variable w : world.
Variable Q : Z -> Prop.
Hypothesis Q_backoff :
  forall n body e d,
    target_bulk w n body = Rejects e -> Q d -> Q (backoff d).

Let paced (st : state) : Prop :=
  Q (delay st) /\ Forall Q (waits (trace st)).

Lemma paced_quiet (e : event) (st : state) :
  waits [e] = [] -> paced st -> paced (emit e st).
Proof.
  intros He [Hd Hw]. split; [ exact Hd | ].
  simpl. rewrite waits_app, He, app_nil_r. exact Hw.
Qed.

Lemma paced_same (st st' : state) :
  delay st' = delay st -> trace st' = trace st -> paced st -> paced st'.
Proof. intros Hd Ht [H1 H2]. split; [ rewrite Hd | rewrite Ht ]; assumption. Qed.

Lemma paced_wait (st : state) : paced st -> paced (emit (Waited (delay st)) st).
Proof.
  intros [Hd Hw]. split; [ exact Hd | ].
  simpl. rewrite waits_app. apply Forall_app. split; [ exact Hw | ].
  constructor; [ exact Hd | constructor ].
Qed.

Lemma paced_send_bulk (operations : list bulk_line) (st : state) :
  paced st -> paced (send_bulk operations st).
Proof.
  intros H. unfold send_bulk. apply paced_quiet; [ reflexivity | ].
  revert H. apply paced_same; reflexivity.
Qed.

Lemma paced_bulk_with_retry (operations : list bulk_line) (budget : nat) :
  forall retries st,
    paced st -> paced (bulk_with_retry w operations budget retries st).
Proof.
  induction budget as [ | budget IH ]; intros retries st H; [ exact H | ].
  cbn [bulk_with_retry].
  destruct (target_bulk w (bulkCalls st) operations) as [ resp | e ] eqn:Ha.
  - destruct (errors resp).
    + apply paced_quiet; [ reflexivity | ].
      apply (paced_same (send_bulk operations st));
        [ reflexivity | reflexivity | ].
      apply paced_send_bulk. exact H.
    + apply paced_send_bulk. exact H.
  - apply IH. unfold retry_later.
    apply (paced_send_bulk operations) in H.
    set (st1 := send_bulk operations st) in *.
    assert (H1 : paced (emit (Waited (delay st1))
                          (logError "Bulk insert failed. Retrying..."
                             (Some e) st1))).
    { apply (paced_wait (logError _ _ st1)).
      apply paced_quiet; [ reflexivity | exact H ]. }
    destruct H1 as [Hd Hw]. split; [ | exact Hw ].
    simpl. apply (Q_backoff _ _ _ _ Ha). exact (proj1 H).
Qed.

Lemma paced_parse_failed (l : list hit) :
  forall st, paced st -> paced (fold_left parse_failed l st).
Proof.
  induction l as [ | doc l IH ]; intros st H; [ exact H | ].
  simpl. apply IH. unfold parse_failed.
  apply (paced_same (logError ("Failed to parse jsonPayload for doc " +:+ _id doc)
                       None st)); [ reflexivity | reflexivity | ].
  apply paced_quiet; [ reflexivity | exact H ].
Qed.

Lemma paced_batch (targetIndex : string) (documents : list hit) (st : state) :
  paced st -> paced (batch w targetIndex documents st).
Proof.
  intros H. unfold batch.
  apply (paced_wait (logInfo _ _)).
  apply paced_quiet; [ reflexivity | ].
  match goal with
  | |- paced (add_processed ?n ?x) =>
      apply (paced_same x); [ reflexivity | reflexivity | ]
  end.
  apply paced_bulk_with_retry. apply paced_parse_failed.
  apply paced_quiet; [ reflexivity | exact H ].
Qed.

Lemma paced_batches (targetIndex : string)
    (pending : list (call (option (list hit)))) :
  forall documents st,
    paced st -> paced (state_of (batches w targetIndex documents pending st)).
Proof.
  induction pending as [ | answer pending IH ]; intros documents st H.
  - destruct documents as [ | doc documents ]; [ exact H | ].
    cbn [batches state_of].
    apply paced_quiet; [ reflexivity | ]. apply paced_batch. exact H.
  - destruct documents as [ | doc documents ]; [ exact H | ].
    cbn [batches].
    assert (H1 : paced (emit ScrollAsked
                          (batch w targetIndex (doc :: documents) st))).
    { apply paced_quiet; [ reflexivity | ]. apply paced_batch. exact H. }
    destruct answer as [ [ next | ] | e ]; [ | exact H1 | exact H1 ].
    apply IH. exact H1.
Qed.

Lemma paced_syncData (sourceIndex targetIndex : string) :
  Q BASE_DELAY ->
  paced (state_of (syncData w sourceIndex targetIndex)).
Proof.
  intros Hbase.
  assert (H0 : paced (logInfo "Starting sync" initial)).
  { apply paced_quiet; [ reflexivity | ]. split; [ exact Hbase | constructor ]. }
  assert (Hcatch : forall c : completion state,
             paced (state_of c) ->
             paced (state_of
                      (try_catch c
                         (fun error st =>
                            Normal (logError "Error during sync:"
                                      (Some error) st))))).
  { intros [ s | s | e s ] Hc; [ exact Hc | exact Hc | ].
    simpl. apply paced_quiet; [ reflexivity | exact Hc ]. }
  unfold syncData. apply Hcatch. unfold syncData_try.
  destruct (provisioning w); [ | exact H0 ].
  destruct (source_count w) as [ [ totalDocs | ] | e ];
    [ | exact H0 | exact H0 ].
  assert (H1 : paced (logInfo "Total documents to sync"
                        (logInfo "Starting sync" initial))).
  { apply paced_quiet; [ reflexivity | exact H0 ]. }
  destruct (source_search w) as [ [ documents | ] | e ];
    [ | exact H1 | exact H1 ].
  pose proof (paced_batches targetIndex (source_scroll w) documents _ H1)
    as H2.
  destruct (batches w targetIndex documents (source_scroll w) _)
    as [ s | s | e s ]; [ | exact H2 | exact H2 ].
  destruct (source_clearScroll w); [ | exact H2 ].
  simpl. apply paced_quiet; [ reflexivity | ].
  apply paced_quiet; [ reflexivity | exact H2 ].
Qed.
End Pacing.

Lemma backoff_bounds (d : Z) :
  BASE_DELAY <= d <= MAX_DELAY -> BASE_DELAY <= backoff d <= MAX_DELAY.
Proof. unfold backoff, BASE_DELAY, MAX_DELAY. lia. Qed.

Lemma parse_failed_causes (l : list hit) :
  forall st, causes (trace (fold_left parse_failed l st)) = causes (trace st).
Proof.
  induction l as [ | doc l IH ]; intros st; [ reflexivity | ].
  simpl. rewrite IH. simpl. rewrite causes_app. simpl. apply app_nil_r.
Qed.

Lemma bulk_with_retry_first_resolves (w : world) (operations : list bulk_line)
    (budget retries : nat) (st : state) (resp : bulk_response) :
  target_bulk w (bulkCalls st) operations = Resolves resp ->
  delay (bulk_with_retry w operations (S budget) retries st) = delay st.
Proof.
  intros H. cbn [bulk_with_retry]. rewrite H.
  destruct (errors resp); reflexivity.
Qed.

(** C8, as stated, fails: three pages, the very first bulk call rejected
    and every other accepted.  The pass makes four bulk calls and four
    waits: the retry wait of 10000 ms, then 20000 ms after each of the three
    batches, the second and the third of which were written at the first
    attempt. *)
Lemma pacing_delay_stays_doubled :
  let w := with_bulk (failing_first 1 ItemIndex)
             (calm [[doc_a]; [doc_b]; [doc_c]]) in
  let st := state_of (syncData w "source" "target") in
  length (bulks (trace st)) = 4%nat /\
  waits (trace st) = [10000; 20000; 20000; 20000] /\
  BASE_DELAY = 10000.
Proof. repeat split. Qed.

(** C8, amended.  Every wait of a pass of the throttled script lies between
    [BASE_DELAY] and [MAX_DELAY]; all of them are [BASE_DELAY] in a pass
    without a rejected bulk call; a batch ends with a wait of the delay it
    has reached, which is the delay it started with when its first bulk call
    resolves. *)
Theorem pacing_delay_is_current_backoff (w : world)
    (sourceIndex targetIndex : string) :
  let tr := trace (state_of (syncData w sourceIndex targetIndex)) in
  Forall (fun ms => BASE_DELAY <= ms <= MAX_DELAY) (waits tr) /\
  ((forall n body, exists resp, target_bulk w n body = Resolves resp) ->
   Forall (fun ms => ms = BASE_DELAY) (waits tr)) /\
  (forall documents st,
      let st' := batch w targetIndex documents st in
      last (trace st') = Some (Waited (delay st')) /\
      ((exists resp,
           target_bulk w (bulkCalls st)
             (index_operations w targetIndex documents) = Resolves resp) ->
       delay st' = delay st)).
Proof.
  intros tr. split; [ | split ].
  - apply (paced_syncData w (fun ms => BASE_DELAY <= ms <= MAX_DELAY)).
    + intros n body e d _. apply backoff_bounds.
    + unfold BASE_DELAY, MAX_DELAY. lia.
  - intros Hcalm.
    apply (paced_syncData w (fun ms => ms = BASE_DELAY)).
    + intros n body e d Ha. destruct (Hcalm n body) as [resp Hr].
      rewrite Hr in Ha. discriminate Ha.
    + reflexivity.
  - intros documents st st'.
    destruct (batch_trace w targetIndex documents st)
      as (Ht & Hd & _ & Hdelay & Hcalls & _).
    fold st' in Ht, Hd. split.
    + rewrite Ht, Hd. apply last_of_two.
    + intros [resp Hr]. rewrite Hd, <- Hdelay.
      apply (bulk_with_retry_first_resolves _ _ _ _ _ resp).
      rewrite Hcalls. exact Hr.
Qed.

(** A pass over three pages with no rejected call: three waits of
    [BASE_DELAY]. *)
Lemma pacing_delay_is_current_backoff_witness :
  let w := calm [[doc_a]; [doc_b]; [doc_c]] in
  let tr := trace (state_of (syncData w "source" "target")) in
  Forall (fun ms => ms = BASE_DELAY) (waits tr) /\ length (waits tr) = 3%nat.
Proof.
  intros w tr. split; [ | reflexivity ].
  destruct (pacing_delay_is_current_backoff w "source" "target")
    as (_ & H & _).
  apply H. intros n body. eexists. reflexivity.
Defined.

(** The throttled script after [MAX_RETRIES] rejections: what the batch
    leaves. *)
Lemma throttled_exhausted (w : world) (targetIndex : string)
    (documents : list hit) (st : state) (cause : nat -> js_error) :
  (forall j, (j < MAX_RETRIES)%nat ->
     target_bulk w (bulkCalls st + j)
       (index_operations w targetIndex documents) = Rejects (cause j)) ->
  let st' := batch w targetIndex documents st in
  bulks (trace st') =
    bulks (trace st) ++
    repeat (index_operations w targetIndex documents) MAX_RETRIES /\
  causes (trace st') = causes (trace st) ++ map cause (seq 0 MAX_RETRIES) /\
  failedDocs st' = (failedDocs st + length (undecodable w documents))%nat.
Proof.
  intros Hrej st'.
  destruct (batch_trace w targetIndex documents st)
    as (Ht & _ & Hfailed & _ & Hcalls & Hf & _ & Hbulks).
  fold st' in Ht, Hfailed.
  set (before := fold_left parse_failed (undecodable w documents)
                   (logInfo "Processing batch" st)) in *.
  assert (Hc : causes (trace before) = causes (trace st)).
  { subst before. rewrite parse_failed_causes. simpl.
    rewrite causes_app. simpl. apply app_nil_r. }
  destruct (rejected_run w (index_operations w targetIndex documents)
              MAX_RETRIES MAX_RETRIES 0 before cause (Nat.le_refl _))
    as (st1 & Hrun & _ & _ & Hf1 & _ & _ & Hb1 & Hc1).
  { intros j Hj. rewrite Hcalls. apply Hrej. exact Hj. }
  rewrite Nat.sub_diag in Hrun. cbn [bulk_with_retry] in Hrun.
  rewrite Hrun in Ht, Hfailed.
  split; [ | split ].
  - rewrite Ht, bulks_app, Hb1, Hbulks. simpl. apply app_nil_r.
  - rewrite Ht, causes_app, Hc1, Hc. simpl. apply app_nil_r.
  - rewrite Hfailed, Hf1, Hf. reflexivity.
Qed.

End ThrottledFacts.

(** ** The restart script: retries *)

Section RestartFacts.
Import Json Cluster Restart Fixtures.

Lemma restart_parse_failed_fold (l : list hit) :
  forall st,
    let st' := fold_left parse_failed l st in
    bulkCalls st' = bulkCalls st /\
    failedDocs st' = (failedDocs st + length l)%nat /\
    bulks (trace st') = bulks (trace st) /\
    causes (trace st') = causes (trace st).
Proof.
  induction l as [ | doc l IH ]; intros st.
  - simpl. repeat split; lia.
  - simpl. destruct (IH (parse_failed st doc)) as (H1 & H2 & H3 & H4).
    rewrite H1, H2, H3, H4. simpl.
    rewrite bulks_app, causes_app. simpl. rewrite !app_nil_r.
    repeat split; lia.
Qed.

(** The restart script after three rejections: what the batch leaves. *)
Lemma restart_exhausted (w : world) (targetIndex : string)
    (documents : list hit) (st : state) (cause : nat -> js_error) :
  (forall j, (j < 3)%nat ->
     target_bulk w (bulkCalls st + j)
       (index_operations w targetIndex documents) = Rejects (cause j)) ->
  exists st',
    batch w targetIndex documents st = Thrown (cause 2%nat) st' /\
    bulks (trace st') =
      bulks (trace st) ++ repeat (index_operations w targetIndex documents) 3 /\
    causes (trace st') = causes (trace st) ++ map cause (seq 0 3) /\
    failedDocs st' =
      (failedDocs st + length (undecodable w documents) + length documents)%nat.
Proof.
  intros Hrej. unfold batch.
  remember (logDebug "Current scroll ID"
              (logInfo "Processing batch"
                 (add_processed (length documents) st))) as st0 eqn:Est0.
  destruct (restart_parse_failed_fold (undecodable w documents) st0)
    as (Hcalls & Hf & Hb & Hc).
  remember (fold_left parse_failed (undecodable w documents) st0) as before
    eqn:Ebefore.
  remember (index_operations w targetIndex documents) as operations
    eqn:Eoperations.
  clear Ebefore Eoperations.
  assert (Hst0 : bulkCalls st0 = bulkCalls st /\
                 failedDocs st0 = failedDocs st /\
                 bulks (trace st0) = bulks (trace st) /\
                 causes (trace st0) = causes (trace st)).
  { subst st0. simpl. rewrite !bulks_app, !causes_app. simpl.
    rewrite !app_nil_r. repeat split; reflexivity. }
  destruct Hst0 as (Hcalls0 & Hf0 & Hb0 & Hc0).
  rewrite Hcalls0 in Hcalls. rewrite Hf0 in Hf.
  rewrite Hb0 in Hb. rewrite Hc0 in Hc. clear Est0 Hcalls0 Hf0 Hb0 Hc0.
  pose proof (Hrej 0%nat ltac:(lia)) as H0.
  pose proof (Hrej 1%nat ltac:(lia)) as H1.
  pose proof (Hrej 2%nat ltac:(lia)) as H2.
  rewrite <- Hcalls in H0, H1, H2. rewrite Nat.add_0_r in H0.
  replace (bulkCalls before + 1)%nat with (S (bulkCalls before)) in H1 by lia.
  replace (bulkCalls before + 2)%nat with (S (S (bulkCalls before))) in H2
    by lia.
  cbn [bulk_with_retry]. rewrite H0. simpl. rewrite H1. simpl. rewrite H2.
  eexists. split; [ reflexivity | ].
  simpl. rewrite !bulks_app, !causes_app, Hb, Hc, Hf. simpl.
  rewrite !app_nil_r, <- !app_assoc. simpl.
  split; [ reflexivity | ]. split; [ reflexivity | ]. lia.
Qed.

End RestartFacts.

(** ** A batch whose bulk call is rejected on every attempt *)

Section ExhaustedRetries.
Import Json Cluster Fixtures.

(** C4, as stated, fails on the restart script: two pages, the bulk
    endpoint out of reach for three calls.  The pass is thrown out of with
    the cause; no [scroll] call was made for the second page, which is never
    processed. *)
Lemma restart_pass_aborts_after_three_rejections :
  let w := with_bulk (failing_first 3 ItemIndex) (calm [[doc_a]; [doc_b]]) in
  let pass := Restart.syncData w "source" "target" in
  source_scroll w = [Resolves (Some [doc_b])] /\
  is_thrown pass = true /\
  length (bulks (Restart.trace (state_of pass))) = 3%nat /\
  scroll_calls (Restart.trace (state_of pass)) = 0%nat /\
  Restart.processedDocs (state_of pass) = 1%nat.
Proof. repeat split. Qed.

(** The throttled script on the same world with five rejections: the pass
    goes on to the second page, and the batch it gave up on is not counted
    in [failedDocs]. *)
Example throttled_pass_goes_on_after_five_rejections :
  let w := with_bulk (failing_first 5 ItemIndex) (calm [[doc_a]; [doc_b]]) in
  let pass := Throttled.syncData w "source" "target" in
  is_thrown pass = false /\
  length (bulks (Throttled.trace (state_of pass))) = 6%nat /\
  scroll_calls (Throttled.trace (state_of pass)) = 2%nat /\
  Throttled.processedDocs (state_of pass) = 2%nat /\
  Throttled.failedDocs (state_of pass) = 0%nat.
Proof. repeat split. Qed.

(** C4, amended.  When every allowed attempt of the bulk call of a batch is
    rejected ([MAX_RETRIES] attempts in the throttled script, three in the
    restart script), the batch has made exactly that many bulk calls and has
    logged the cause of each rejection.  The throttled script then goes on
    to the next page; the restart script counts every document of the batch
    as failed and throws the last cause out of the batch loop. *)
Theorem bulk_retries_exhausted :
  (forall (w : world) (targetIndex : string) (doc : hit) (rest : list hit)
          (st : Throttled.state) (cause : nat -> js_error),
      let documents := doc :: rest in
      let operations := index_operations w targetIndex documents in
      (forall j, (j < Throttled.MAX_RETRIES)%nat ->
         target_bulk w (Throttled.bulkCalls st + j) operations =
         Rejects (cause j)) ->
      let st' := Throttled.batch w targetIndex documents st in
      bulks (Throttled.trace st') =
        bulks (Throttled.trace st) ++ repeat operations Throttled.MAX_RETRIES /\
      causes (Throttled.trace st') =
        causes (Throttled.trace st) ++
        map cause (seq 0 Throttled.MAX_RETRIES) /\
      forall next pending,
        Throttled.batches w targetIndex documents
          (Resolves (Some next) :: pending) st =
        Throttled.batches w targetIndex next pending
          (Throttled.emit ScrollAsked st'))
  /\
  (forall (w : world) (targetIndex : string) (doc : hit) (rest : list hit)
          (st : Restart.state) (cause : nat -> js_error),
      let documents := doc :: rest in
      let operations := index_operations w targetIndex documents in
      (forall j, (j < 3)%nat ->
         target_bulk w (Restart.bulkCalls st + j) operations =
         Rejects (cause j)) ->
      exists st',
        Restart.batch w targetIndex documents st = Thrown (cause 2%nat) st' /\
        bulks (Restart.trace st') =
          bulks (Restart.trace st) ++ repeat operations 3 /\
        causes (Restart.trace st') =
          causes (Restart.trace st) ++ map cause (seq 0 3) /\
        Restart.failedDocs st' =
          (Restart.failedDocs st + length (undecodable w documents)
           + length documents)%nat /\
        forall pending,
          Restart.batches w targetIndex documents pending st =
          Thrown (cause 2%nat) st').
Proof.
  split.
  - intros w targetIndex doc rest st cause documents operations Hrej st'.
    destruct (throttled_exhausted w targetIndex documents st cause Hrej)
      as (Hb & Hc & _).
    split; [ exact Hb | ]. split; [ exact Hc | ].
    intros next pending. reflexivity.
  - intros w targetIndex doc rest st cause documents operations Hrej.
    destruct (restart_exhausted w targetIndex documents st cause Hrej)
      as (st' & Hbatch & Hb & Hc & Hf).
    exists st'. split; [ exact Hbatch | ]. split; [ exact Hb | ].
    split; [ exact Hc | ]. split; [ exact Hf | ].
    intros pending. subst documents.
    destruct pending as [ | answer pending ]; cbn [Restart.batches];
      rewrite Hbatch; reflexivity.
Qed.

(** Both halves on the page [a] with an endpoint that stays out of reach. *)
Lemma bulk_retries_exhausted_witness :
  let w := with_bulk (failing_first 9 ItemIndex) (calm [[doc_a]; [doc_b]]) in
  let operations := index_operations w "target" [doc_a] in
  bulks (Throttled.trace
           (Throttled.batch w "target" [doc_a] Throttled.initial)) =
    repeat operations 5 /\
  exists st',
    Restart.batch w "target" [doc_a] Restart.initial =
      Thrown unreachable st' /\
    Restart.failedDocs st' = 1%nat.
Proof.
  intros w operations.
  destruct bulk_retries_exhausted as [Hthrottled Hrestart]. split.
  - destruct (Hthrottled w "target" doc_a [] Throttled.initial
                (fun _ => unreachable)) as (H & _).
    + intros j Hj. unfold Throttled.MAX_RETRIES in Hj.
      do 5 (destruct j as [ | j ]; [ reflexivity | ]). lia.
    + exact H.
  - destruct (Hrestart w "target" doc_a [] Restart.initial
                (fun _ => unreachable)) as (st' & H & _ & _ & Hf & _).
    + intros j Hj.
      do 3 (destruct j as [ | j ]; [ reflexivity | ]). lia.
    + exists st'. split; [ exact H | exact Hf ].
Defined.

End ExhaustedRetries.

(** ** The scheduler loops *)

Section SchedulerFacts.
Import Json Cluster Scheduler Fixtures.

(** C2, on the code: the restart script over an empty source, every pass
    taking one second.  Pass 0 settles at 1000 ms, having set the restart
    timer (line 198); [main] then starts its own wait (line 214).  At 6000 ms
    the timer starts pass 1 and [main] starts pass 2 while pass 1 is in
    flight. *)
Theorem restart_passes_overlap :
  let worlds := fun _ : nat => calm [] in
  let elapsed := fun _ : nat => 1000 in
  let after := Restart.run 3 worlds elapsed "source" "target"
                 (Restart.boot elapsed) in
  option_map Restart.history after =
    Some [PassStarted 0; PassSettled 0 false; PassStarted 1; PassStarted 2] /\
  option_map Restart.now after = Some 6000 /\
  option_map (fun l => max_in_flight (Restart.history l) 0) after = Some 2%nat /\
  option_map (fun l => serialized (Restart.history l)) after = Some false.
Proof. repeat split. Qed.

Lemma forever_steady (f : nat -> list sched_event)
    (body : nat -> list sched_event -> option (completion (list sched_event))) :
  (forall n h, body n h = Some (Normal (h ++ f n))) ->
  forall fuel n h,
    forever fuel body n h = (Running, h ++ flat_map f (seq n fuel)).
Proof.
  intros Hbody. induction fuel as [ | fuel IH ]; intros n h.
  - simpl. rewrite app_nil_r. reflexivity.
  - cbn [forever]. rewrite Hbody, IH. simpl. rewrite <- app_assoc.
    reflexivity.
Qed.

Lemma throttled_syncData_settles (w : world) (sourceIndex targetIndex : string) :
  is_thrown (Throttled.syncData w sourceIndex targetIndex) = false.
Proof.
  unfold Throttled.syncData.
  destruct (Throttled.syncData_try w sourceIndex targetIndex); reflexivity.
Qed.

Lemma throttled_main_runs (fuel : nat) (worlds : nat -> world)
    (sourceIndex targetIndex : string) :
  Throttled.main fuel worlds sourceIndex targetIndex =
  (Running,
   flat_map (fun n => [PassStarted n; PassSettled n false; Slept 7200000])
            (seq 0 fuel)).
Proof.
  unfold Throttled.main.
  rewrite (forever_steady
             (fun n => [PassStarted n; PassSettled n false; Slept 7200000]));
    [ reflexivity | ].
  intros n h. unfold Throttled.main_turn.
  pose proof (throttled_syncData_settles (worlds n) sourceIndex targetIndex)
    as Hs.
  destruct (Throttled.syncData (worlds n) sourceIndex targetIndex);
    [ | | discriminate Hs ]; rewrite <- app_assoc; reflexivity.
Qed.

(** *** The event loop of the restart script *)

Lemma earliest_spec (q : list (Z * Restart.task)) :
  match Restart.earliest q with
  | None => q = []
  | Some (x, rest) => forall y, In y q <-> y = x \/ In y rest
  end.
Proof.
  induction q as [ | x q IH ]; [ reflexivity | ].
  cbn [Restart.earliest].
  destruct (Restart.earliest q) as [ [y rest] | ].
  - destruct (fst y <? fst x).
    + intros z. simpl. rewrite (IH z). intuition congruence.
    + intros z. simpl. intuition congruence.
  - subst q. intros z. simpl. intuition congruence.
Qed.





(** What the rejection of a pass the restart timer started does: the
    process ends with code 1 and no turn follows. *)
Lemma unhandled_rejection_ends_process (worlds : nat -> world)
    (elapsed : nat -> Z) (sourceIndex targetIndex : string)
    (l : Restart.loop) (n : nat) :
  Restart.running l ->
  Restart.unhandled worlds sourceIndex targetIndex l n ->
  exists l',
    Restart.step worlds elapsed sourceIndex targetIndex l = Some l' /\
    Restart.exit_code l' = Some 1 /\
    Restart.history l' = Restart.history l ++ [PassSettled n true] /\
    Restart.step worlds elapsed sourceIndex targetIndex l' = None.
Proof.
  intros Hrun ((due & rest & E) & Ht). unfold Restart.step at 1.
  unfold Restart.running in Hrun. rewrite Hrun, E.
  unfold Restart.settle_pass. rewrite Ht. cbn [andb negb].
  eexists. split; [ reflexivity | ]. repeat split.
Qed.

(** The restart script over a source whose count is refused to the second
    pass.  Pass 0 completes and sets the restart timer; the timer starts
    pass 1 and [main] pass 2; pass 1 is rejected, nothing handles the
    rejection, and the process ends with code 1 while pass 2 is in
    flight. *)
Example restart_unhandled_rejection_exits :
  let worlds := fun n : nat =>
    if Nat.eqb n 1 then with_source_count (Rejects unreachable) (calm [])
    else calm [] in
  let elapsed := fun _ : nat => 1000 in
  option_map (fun l => (Restart.history l, Restart.exit_code l))
    (Restart.run 4 worlds elapsed "source" "target" (Restart.boot elapsed)) =
    Some ([PassStarted 0; PassSettled 0 false; PassStarted 1; PassStarted 2;
           PassSettled 1 true], Some 1) /\
  Restart.run 5 worlds elapsed "source" "target" (Restart.boot elapsed) = None.
Proof. split; reflexivity. Qed.

(** *** The loop of the differential script *)






End SchedulerFacts.

(** ** The differential script: the counters of a batch *)

Section DifferentialFacts.
Import Json Cluster Differential Fixtures.


Lemma hasDocumentChanged_counters (w : world) (index docId : string)
    (newData : obj) (st : state) :
  let st' := snd (hasDocumentChanged w index docId newData st) in
  processedDocs st' = processedDocs st /\ updatedDocs st' = updatedDocs st /\
  skippedDocs st' = skippedDocs st /\ failedDocs st' = failedDocs st /\
  bulkCalls st' = bulkCalls st.
Proof.
  unfold hasDocumentChanged.
  destruct (changed_verdict _ _) as [verdict [ e | ]]; simpl;
    repeat split; reflexivity.
Qed.




(** A bulk call that throws counts every submitted document as failed. *)
Example differential_rejected_bulk :
  let w := with_bulk (fun _ _ => Rejects unreachable) (calm [page_abc]) in
  let st := batch w "target" page_abc initial in
  (processedDocs st, updatedDocs st, skippedDocs st, failedDocs st) =
    (3, 0, 0, 3)%nat.
Proof. reflexivity. Qed.

(** The batch loop never leaves a page that is not empty. *)
Lemma differential_batches_stay (w : world) (targetIndex : string)
    (doc : hit) (documents : list hit) (fuel : nat) :
  forall st, batches fuel w targetIndex (doc :: documents) st = None.
Proof.
  induction fuel as [ | fuel IH ]; intros st; [ reflexivity | ].
  cbn [batches]. apply IH.
Qed.

End DifferentialFacts.

(** ** The restart script: every completed first pass is followed by two
    passes in flight *)

Section RestartOverlap.
Import Json Cluster Scheduler Restart Fixtures.

Lemma restart_timers_app (a b : list event) :
  restart_timers (a ++ b) = restart_timers a ++ restart_timers b.
Proof.
  induction a as [ | e a IH ]; [ reflexivity | ].
  destruct e; simpl; rewrite IH; reflexivity.
Qed.

Lemma no_timer_emit (e : event) (st : state) :
  restart_timers [e] = [] -> no_timer st -> no_timer (emit e st).
Proof.
  unfold no_timer. intros He H. simpl.
  rewrite restart_timers_app, H, He. reflexivity.
Qed.

Lemma no_timer_same (st st' : state) :
  trace st' = trace st -> no_timer st -> no_timer st'.
Proof. unfold no_timer. intros ->. exact id. Qed.

Lemma no_timer_bulk_with_retry (w : world) (operations : list bulk_line)
    (documents : list hit) (retries : nat) :
  forall st,
    no_timer st ->
    no_timer (state_of (bulk_with_retry w operations documents retries st)).
Proof.
  induction retries as [ | retries IH ]; intros st H; [ exact H | ].
  cbn [bulk_with_retry].
  assert (Hs : no_timer (send_bulk operations st)).
  { unfold send_bulk. apply no_timer_emit; [ reflexivity | ].
    revert H. apply no_timer_same. reflexivity. }
  destruct (target_bulk w (bulkCalls st) operations) as [ resp | e ].
  - cbn [state_of]. destruct (errors resp); [ | exact Hs ].
    apply no_timer_emit; [ reflexivity | ].
    revert Hs. apply no_timer_same. reflexivity.
  - destruct retries as [ | retries ].
    + cbn [state_of].
      apply (no_timer_same
               (logError "Error during bulk indexing (all retries failed):"
                  (Some e) (send_bulk operations st))); [ reflexivity | ].
      apply no_timer_emit; [ reflexivity | exact Hs ].
    + apply IH. apply no_timer_emit; [ reflexivity | ].
      apply no_timer_emit; [ reflexivity | exact Hs ].
Qed.

Lemma no_timer_parse_failed (l : list hit) :
  forall st, no_timer st -> no_timer (fold_left parse_failed l st).
Proof.
  induction l as [ | doc l IH ]; intros st H; [ exact H | ].
  simpl. apply IH. unfold parse_failed.
  apply (no_timer_same
           (logError ("Failed to parse jsonPayload for document " +:+ _id doc)
              None st)); [ reflexivity | ].
  apply no_timer_emit; [ reflexivity | exact H ].
Qed.

Lemma no_timer_batch (w : world) (targetIndex : string) (documents : list hit)
    (st : state) :
  no_timer st -> no_timer (state_of (batch w targetIndex documents st)).
Proof.
  intros H. unfold batch. apply no_timer_bulk_with_retry.
  apply no_timer_parse_failed.
  apply no_timer_emit; [ reflexivity | ].
  apply no_timer_emit; [ reflexivity | ].
  revert H. apply no_timer_same. reflexivity.
Qed.

Lemma no_timer_batches (w : world) (targetIndex : string)
    (pending : list (call (option (list hit)))) :
  forall documents st,
    no_timer st ->
    no_timer (state_of (batches w targetIndex documents pending st)).
Proof.
  induction pending as [ | answer pending IH ]; intros documents st H;
    (destruct documents as [ | doc documents ]; [ exact H | ]);
    cbn [batches];
    pose proof (no_timer_batch w targetIndex (doc :: documents) st H) as Hb;
    destruct (batch w targetIndex (doc :: documents) st) as [ s | s | e s ];
    cbn [state_of] in Hb |- *; try exact Hb.
  - apply no_timer_emit; [ reflexivity | ].
    apply no_timer_emit; [ reflexivity | exact Hb ].
  - destruct answer as [ [ next | ] | e ]; cbn [state_of].
    + apply IH. apply no_timer_emit; [ reflexivity | ].
      apply no_timer_emit; [ reflexivity | exact Hb ].
    + apply no_timer_emit; [ reflexivity | ].
      apply no_timer_emit; [ reflexivity | exact Hb ].
    + apply no_timer_emit; [ reflexivity | ].
      apply no_timer_emit; [ reflexivity | exact Hb ].
Qed.

(** A pass that is not thrown out of has set the restart timer, once. *)
Lemma completed_pass_sets_timer (w : world) (sourceIndex targetIndex : string) :
  is_normal (syncData w sourceIndex targetIndex) = true ->
  restart_timers (trace (state_of (syncData w sourceIndex targetIndex))) =
  [5000].
Proof.
  unfold syncData, syncData_try.
  destruct (provisioning w); [ | discriminate ].
  destruct (source_count w) as [ [ totalDocs | ] | e ]; try discriminate.
  destruct (source_search w) as [ [ documents | ] | e ]; try discriminate.
  set (st0 := logDebug "Starting sync"
                (logInfo "Total documents to sync" initial)).
  assert (H0 : no_timer st0) by reflexivity.
  pose proof (no_timer_batches w targetIndex (source_scroll w) documents st0 H0)
    as Hb.
  destruct (batches w targetIndex documents (source_scroll w) st0)
    as [ s | s | e s ]; cbn [state_of] in Hb; try discriminate.
  - intros _.
    assert (Hc : no_timer
                   match source_clearScroll w with
                   | Resolves _ => s
                   | Rejects clearScrollError =>
                       logError "Error clearing scroll:"
                         (Some clearScrollError) s
                   end).
    { destruct (source_clearScroll w); [ exact Hb | ].
      apply no_timer_emit; [ reflexivity | exact Hb ]. }
    unfold no_timer in Hc. simpl.
    rewrite !restart_timers_app, Hc. reflexivity.
Qed.

(** Whatever the worlds and however long the passes take, once pass 0 has
    completed the third turn of the event loop finds pass 1, started by the
    timer, in flight when [main] starts pass 2. *)
Lemma restart_overlap_after_completed_pass (worlds : nat -> world)
    (elapsed : nat -> Z) (sourceIndex targetIndex : string) :
  (forall n, 0 < elapsed n) ->
  is_normal (syncData (worlds 0%nat) sourceIndex targetIndex) = true ->
  exists l,
    run 3 worlds elapsed sourceIndex targetIndex (boot elapsed) = Some l /\
    history l =
      [PassStarted 0; PassSettled 0 false; PassStarted 1; PassStarted 2] /\
    serialized (history l) = false.
Proof.
  intros Hpos Hdone.
  pose proof (completed_pass_sets_timer (worlds 0%nat) sourceIndex targetIndex
                Hdone) as Htimer.
  pose proof (Hpos 0%nat) as H0. pose proof (Hpos 1%nat) as H1.
  unfold run, step, boot, start_pass, settle_pass.
  cbn [timers now passes history exit_code app earliest fst snd].
  assert (Hsettled : is_thrown (syncData (worlds 0%nat) sourceIndex targetIndex)
                     = false).
  { destruct (syncData (worlds 0%nat) sourceIndex targetIndex);
      [ reflexivity | reflexivity | discriminate Hdone ]. }
  rewrite Htimer, Hsettled.
  cbn [map timers now passes history exit_code andb negb app earliest
       fst snd].
  rewrite Z.ltb_irrefl.
  cbn [map timers now passes history exit_code app earliest fst snd].
  match goal with
  | |- context [ (?a <? ?b) ] =>
      destruct (Z.ltb_spec a b) as [ Hlt | Hge ]; [ exfalso; lia | ]
  end.
  eexists. split; [ reflexivity | ]. split; reflexivity.
Qed.

(** The waits of the restart script between its three attempts. *)
Example restart_retry_waits :
  let w := with_bulk (failing_first 2 ItemIndex) (calm [[doc_a]]) in
  waits (trace (state_of (syncData w "source" "target"))) = [1000; 2000].
Proof. reflexivity. Qed.

End RestartOverlap.

(** The loop of [main] in the throttled script never has two passes in
    flight. *)
Lemma throttled_main_serialized (fuel : nat) (worlds : nat -> Cluster.world)
    (sourceIndex targetIndex : string) :
  Scheduler.serialized
    (snd (Throttled.main fuel worlds sourceIndex targetIndex)) = true.
Proof.
  rewrite throttled_main_runs. cbn [snd]. unfold Scheduler.serialized.
  apply Nat.leb_le. generalize 0%nat at 1. intros n.
  induction fuel as [ | fuel IH ] in n |- *; [ simpl; lia | ].
  cbn [seq flat_map app Scheduler.max_in_flight Scheduler.in_flight_after
       Nat.pred].
  specialize (IH (S n)). lia.
Qed.

(** * Further properties of the scripts

    ** Objects *)

Section ObjectFacts.
Import Json Provision.

Lemma get_set_same (key : string) (v : value) (o : obj) :
  get_field key (set_field key v o) = Some v.
Proof.
  induction o as [ | [k w] o IH ]; simpl.
  - rewrite String.eqb_refl. reflexivity.
  - destruct (String.eqb k key) eqn:E; simpl; rewrite E; [ reflexivity | ].
    exact IH.
Qed.

Lemma get_set_other (key key' : string) (v : value) (o : obj) :
  key <> key' -> get_field key' (set_field key v o) = get_field key' o.
Proof.
  intros Hne. induction o as [ | [k w] o IH ]; simpl.
  - destruct (String.eqb_spec key key'); [ contradiction | reflexivity ].
  - destruct (String.eqb_spec k key) as [ -> | Hk ]; simpl.
    + destruct (String.eqb_spec key key'); [ contradiction | reflexivity ].
    + destruct (String.eqb k key'); [ reflexivity | exact IH ].
Qed.

Lemma keys_set_present (key : string) (v : value) (o : obj) :
  is_Some (get_field key o) -> map fst (set_field key v o) = map fst o.
Proof.
  induction o as [ | [k w] o IH ]; simpl; intros [x Hx].
  - discriminate Hx.
  - destruct (String.eqb k key); simpl; [ reflexivity | ].
    f_equal. apply IH. eexists. exact Hx.
Qed.

Lemma get_delete_same (key : string) (o : obj) :
  get_field key (delete_field key o) = None.
Proof.
  induction o as [ | [k w] o IH ]; simpl; [ reflexivity | ].
  destruct (String.eqb k key) eqn:E; simpl; [ exact IH | ].
  rewrite E. exact IH.
Qed.

Lemma get_delete_other (key key' : string) (o : obj) :
  key <> key' -> get_field key' (delete_field key o) = get_field key' o.
Proof.
  intros Hne. induction o as [ | [k w] o IH ]; simpl; [ reflexivity | ].
  destruct (String.eqb_spec k key) as [ -> | Hk ]; simpl.
  - destruct (String.eqb_spec key key'); [ contradiction | exact IH ].
  - destruct (String.eqb k key'); [ reflexivity | exact IH ].
Qed.

End ObjectFacts.

(** ** The transform step *)

Section TransformFacts.
Import Json Cluster Fixtures.

Lemma encoded_payload_spec (source : obj) (s : string) :
  encoded_payload source = Some s <->
  get_field "jsonPayload" source = Some (JStr s) /\ s <> EmptyString.
Proof.
  unfold encoded_payload.
  destruct (get_field "jsonPayload" source) as [ [ | b | n | t | l | f ] | ];
    try (split; [ discriminate | intros [H _]; discriminate H ]).
  destruct (String.eqb_spec t EmptyString) as [ -> | Hne ].
  - split; [ discriminate | ]. intros [H Hs]. injection H as <-.
    contradiction.
  - split.
    + intros H. injection H as <-. split; [ reflexivity | exact Hne ].
    + intros [H _]. injection H as <-. reflexivity.
Qed.

(** X1.  The transform of a record fails exactly when its [jsonPayload] is a
    string, not the empty one, that [JSON.parse] refuses; every other
    record is transformed. *)
Theorem decode_fails_iff (w : world) (doc : hit) :
  decode w doc = None <->
  exists s,
    get_field "jsonPayload" (_source doc) = Some (JStr s) /\
    s <> EmptyString /\ JSON_parse w s = None.
Proof.
  unfold decode. split.
  - destruct (encoded_payload (_source doc)) as [ s | ] eqn:E;
      [ | discriminate ].
    apply encoded_payload_spec in E as [Hget Hne].
    destruct (JSON_parse w s) eqn:Hp; [ discriminate | ].
    intros _. exists s. auto.
  - intros (s & Hget & Hne & Hp).
    assert (E : encoded_payload (_source doc) = Some s)
      by (apply encoded_payload_spec; auto).
    rewrite E, Hp. reflexivity.
Qed.

(** X2.  A transformed record has the keys of the source record in the
    same order, and the same value under every key but [jsonPayload]; when
    the payload was encoded text it now holds what [JSON.parse] made of it,
    and otherwise (no payload, a structured one, the empty string) the
    record is the source record. *)
Theorem decode_keeps_shape (w : world) (doc : hit) (source : obj) :
  decode w doc = Some source ->
  map fst source = map fst (_source doc) /\
  (forall key, key <> "jsonPayload"%string ->
     get_field key source = get_field key (_source doc)) /\
  match encoded_payload (_source doc) with
  | Some s =>
      exists payload,
        JSON_parse w s = Some payload /\
        get_field "jsonPayload" source = Some payload
  | None => source = _source doc
  end.
Proof.
  unfold decode.
  destruct (encoded_payload (_source doc)) as [ s | ] eqn:E.
  - apply encoded_payload_spec in E as [Hget _].
    destruct (JSON_parse w s) as [ payload | ]; [ | discriminate ].
    intros H. injection H as <-. split; [ | split ].
    + apply keys_set_present. eexists. exact Hget.
    + intros key Hkey. apply get_set_other. congruence.
    + exists payload. split; [ reflexivity | apply get_set_same ].
  - intros H. injection H as <-. repeat split.
Qed.

(** Record [a] of the scenario. *)
Lemma decode_keeps_shape_witness :
  map fst [("title", JStr "first"); ("jsonPayload", JObj [("n", JNum 1)])] =
    map fst (_source doc_a) /\
  get_field "title"
    [("title", JStr "first"); ("jsonPayload", JObj [("n", JNum 1)])] =
    get_field "title" (_source doc_a).
Proof.
  destruct (decode_keeps_shape (calm []) doc_a
              [("title", JStr "first"); ("jsonPayload", JObj [("n", JNum 1)])]
              eq_refl) as (Hkeys & Hother & _).
  split; [ exact Hkeys | ]. apply Hother. discriminate.
Defined.

End TransformFacts.

(** ** Provisioning *)

Section ProvisionFacts.
Import Json Cluster Provision.

Lemma set_same (key : string) (v : value) (o : obj) :
  get_field key o = Some v -> set_field key v o = o.
Proof.
  induction o as [ | [k w] o IH ]; simpl; [ discriminate | ].
  destruct (String.eqb k key); intros H.
  - injection H as ->. reflexivity.
  - rewrite (IH H). reflexivity.
Qed.

Lemma delete_delete (key : string) (o : obj) :
  delete_field key (delete_field key o) = delete_field key o.
Proof.
  induction o as [ | [k w] o IH ]; simpl; [ reflexivity | ].
  destruct (String.eqb k key) eqn:E; simpl; [ exact IH | ].
  rewrite E, IH. reflexivity.
Qed.

Lemma retype_payload_not_null (v : value) :
  v <> JNull -> retype_payload v <> JNull.
Proof. destruct v; simpl; congruence. Qed.

Lemma strip_analyzer_not_null (v : value) :
  v <> JNull -> strip_analyzer v <> JNull.
Proof. destruct v; simpl; congruence. Qed.

Lemma retype_payload_twice (v : value) :
  retype_payload (retype_payload v) = retype_payload v.
Proof.
  destruct v as [ | | | | | fields ]; try reflexivity. simpl. f_equal.
  rewrite (set_same "type" (JStr "object")).
  - apply delete_delete.
  - rewrite get_delete_other by discriminate. apply get_set_same.
Qed.

Lemma strip_analyzer_twice (v : value) :
  strip_analyzer (strip_analyzer v) = strip_analyzer v.
Proof.
  destruct v as [ | | | | | fields ]; try reflexivity. simpl. f_equal.
  apply delete_delete.
Qed.

Lemma present_dec (key : string) (props : obj) :
  present key props \/
  get_field key props = None \/ get_field key props = Some JNull.
Proof.
  unfold present. destruct (get_field key props) as [ v | ]; [ | auto ].
  destruct v; try (left; eexists; split; [ reflexivity | discriminate ]).
  auto.
Qed.

Lemma adjust_properties_present (props : obj) (jp mv b : value) :
  get_field "jsonPayload" props = Some jp -> jp <> JNull ->
  get_field "marketVariation" props = Some mv -> mv <> JNull ->
  get_field "brand" props = Some b -> b <> JNull ->
  adjust_properties (JObj props) =
  Some (JObj (set_field "brand" (strip_analyzer b)
                (set_field "marketVariation" (strip_analyzer mv)
                   (set_field "jsonPayload" (retype_payload jp) props)))).
Proof.
  intros Hjp Njp Hmv Nmv Hb Nb. unfold adjust_properties.
  rewrite Hjp. destruct jp; try contradiction;
    (rewrite get_set_other by discriminate; rewrite Hmv;
     destruct mv; try contradiction;
     (rewrite !get_set_other by discriminate; rewrite Hb;
      destruct b; try contradiction; reflexivity)).
Qed.

Lemma adjust_properties_inv (props : obj) (adjusted : value) :
  adjust_properties (JObj props) = Some adjusted ->
  exists jp mv b,
    (get_field "jsonPayload" props = Some jp /\ jp <> JNull) /\
    (get_field "marketVariation" props = Some mv /\ mv <> JNull) /\
    (get_field "brand" props = Some b /\ b <> JNull).
Proof.
  intros H.
  destruct (present_dec "jsonPayload" props) as [ (jp & Hjp & Njp) | Hno ].
  - destruct (present_dec "marketVariation" props)
      as [ (mv & Hmv & Nmv) | Hno ].
    + destruct (present_dec "brand" props) as [ (b & Hb & Nb) | Hno ].
      * exists jp, mv, b. auto.
      * exfalso. unfold adjust_properties in H. rewrite Hjp in H.
        destruct jp; try contradiction;
          (rewrite get_set_other in H by discriminate; rewrite Hmv in H;
           destruct mv; try contradiction;
           (rewrite !get_set_other in H by discriminate;
            destruct Hno as [ Hno | Hno ]; rewrite Hno in H; discriminate H)).
    + exfalso. unfold adjust_properties in H. rewrite Hjp in H.
      destruct jp; try contradiction;
        (rewrite get_set_other in H by discriminate;
         destruct Hno as [ Hno | Hno ]; rewrite Hno in H; discriminate H).
  - exfalso. unfold adjust_properties in H.
    destruct Hno as [ Hno | Hno ]; rewrite Hno in H; discriminate H.
Qed.

(** When the adjustment of the properties goes through. *)
Lemma adjust_properties_defined (props : obj) :
  is_Some (adjust_properties (JObj props)) <->
  present "jsonPayload" props /\ present "marketVariation" props /\
  present "brand" props.
Proof.
  split.
  - intros [adjusted H].
    destruct (adjust_properties_inv props adjusted H)
      as (jp & mv & b & Hjp & Hmv & Hb).
    repeat split; eexists; eassumption.
  - intros ((jp & Hjp & Njp) & (mv & Hmv & Nmv) & (b & Hb & Nb)).
    rewrite (adjust_properties_present props jp mv b) by assumption.
    eexists. reflexivity.
Qed.

(** X3.  The adjustment of the properties of the source mapping goes
    through exactly when [jsonPayload], [marketVariation] and [brand] are
    all there and none is null; with one of them missing it ends in a
    TypeError. *)
Theorem adjust_properties_succeeds_iff (props : obj) :
  is_Some (adjust_properties (JObj props)) <->
  present "jsonPayload" props /\ present "marketVariation" props /\
  present "brand" props.
Proof. exact (adjust_properties_defined props). Qed.

(** What the adjustment changes and what it keeps. *)
Lemma adjust_properties_keeps (props : obj) (adjusted : value) :
  adjust_properties (JObj props) = Some adjusted ->
  exists props',
    adjusted = JObj props' /\
    map fst props' = map fst props /\
    (forall key,
        key <> "jsonPayload"%string -> key <> "marketVariation"%string ->
        key <> "brand"%string ->
        get_field key props' = get_field key props) /\
    (forall old,
        get_field "jsonPayload" props = Some (JObj old) ->
        exists new,
          get_field "jsonPayload" props' = Some (JObj new) /\
          get_field "type" new = Some (JStr "object") /\
          get_field "fields" new = None /\
          forall k, k <> "type"%string -> k <> "fields"%string ->
                    get_field k new = get_field k old) /\
    (forall name old,
        name = "marketVariation"%string \/ name = "brand"%string ->
        get_field name props = Some (JObj old) ->
        exists new,
          get_field name props' = Some (JObj new) /\
          get_field "analyzer" new = None /\
          forall k, k <> "analyzer"%string ->
                    get_field k new = get_field k old).
Proof.
  intros H.
  destruct (adjust_properties_inv props adjusted H)
    as (jp & mv & b & (Hjp & Njp) & (Hmv & Nmv) & (Hb & Nb)).
  rewrite (adjust_properties_present props jp mv b) in H by assumption.
  injection H as <-. eexists. split; [ reflexivity | ].
  split; [ | split; [ | split ] ].
  - rewrite !keys_set_present; [ reflexivity | | | ].
    + eexists. exact Hjp.
    + rewrite get_set_other by discriminate. eexists. exact Hmv.
    + rewrite !get_set_other by discriminate. eexists. exact Hb.
  - intros key H1 H2 H3.
    rewrite !get_set_other by congruence. reflexivity.
  - intros old Hold. rewrite Hjp in Hold. injection Hold as ->.
    eexists. split; [ | split; [ | split ] ].
    + rewrite !get_set_other by discriminate. rewrite get_set_same.
      reflexivity.
    + rewrite get_delete_other by discriminate. apply get_set_same.
    + apply get_delete_same.
    + intros k Hk1 Hk2. rewrite get_delete_other by congruence.
      apply get_set_other. congruence.
  - intros name old [ -> | -> ] Hold.
    + rewrite Hmv in Hold. injection Hold as ->.
      eexists. split; [ | split ].
      * rewrite get_set_other by discriminate. rewrite get_set_same.
        reflexivity.
      * apply get_delete_same.
      * intros k Hk. apply get_delete_other. congruence.
    + rewrite Hb in Hold. injection Hold as ->.
      eexists. split; [ | split ].
      * rewrite get_set_same. reflexivity.
      * apply get_delete_same.
      * intros k Hk. apply get_delete_other. congruence.
Qed.

(** X4.  In the adjusted properties the keys are those of the source, in
    the same order, and every property but the three is untouched; a
    [jsonPayload] that is an object has type [object] and no [fields], its
    other members as before; [marketVariation] and [brand], when objects,
    have lost [analyzer] and nothing else. *)
Theorem adjusted_properties_shape (props : obj) (adjusted : value) :
  adjust_properties (JObj props) = Some adjusted ->
  exists props',
    adjusted = JObj props' /\
    map fst props' = map fst props /\
    (forall key,
        key <> "jsonPayload"%string -> key <> "marketVariation"%string ->
        key <> "brand"%string ->
        get_field key props' = get_field key props) /\
    (forall old,
        get_field "jsonPayload" props = Some (JObj old) ->
        exists new,
          get_field "jsonPayload" props' = Some (JObj new) /\
          get_field "type" new = Some (JStr "object") /\
          get_field "fields" new = None /\
          forall k, k <> "type"%string -> k <> "fields"%string ->
                    get_field k new = get_field k old) /\
    (forall name old,
        name = "marketVariation"%string \/ name = "brand"%string ->
        get_field name props = Some (JObj old) ->
        exists new,
          get_field name props' = Some (JObj new) /\
          get_field "analyzer" new = None /\
          forall k, k <> "analyzer"%string ->
                    get_field k new = get_field k old).
Proof. exact (adjust_properties_keeps props adjusted). Qed.

(** The product mapping: [title] is untouched, [jsonPayload] becomes an
    object without [fields], [brand] loses its analyzer. *)
Lemma adjusted_properties_shape_witness :
  exists props',
    adjust_properties (JObj Samples.product_properties) = Some (JObj props') /\
    map fst props' = map fst Samples.product_properties /\
    get_field "title" props' = get_field "title" Samples.product_properties.
Proof.
  destruct (adjusted_properties_shape Samples.product_properties _ eq_refl)
    as (props' & E & Hkeys & Hother & _).
  exists props'. split; [ rewrite <- E; reflexivity | ].
  split; [ exact Hkeys | ]. apply Hother; discriminate.
Defined.

Lemma adjust_mappings_inv (mappings adjusted : value) :
  adjust_mappings mappings = Some adjusted ->
  exists ms props props',
    mappings = JObj ms /\
    get_field "properties" ms = Some (JObj props) /\
    adjust_properties (JObj props) = Some (JObj props') /\
    adjusted = JObj (set_field "properties" (JObj props') ms).
Proof.
  unfold adjust_mappings.
  destruct mappings as [ | | | | | ms ]; try discriminate.
  destruct (get_field "properties" ms) as [ properties | ] eqn:Hp;
    [ | discriminate ].
  destruct (adjust_properties properties) as [ p' | ] eqn:Ha;
    [ | discriminate ].
  intros H. injection H as <-.
  destruct properties as [ | | | | | props ]; try discriminate Ha.
  destruct (adjust_properties_keeps props p' Ha) as (props' & -> & _).
  exists ms, props, props'. auto.
Qed.

(** X5.  Adjusting a mapping that is already adjusted changes nothing. *)
Theorem adjust_mappings_idempotent (mappings adjusted : value) :
  adjust_mappings mappings = Some adjusted ->
  adjust_mappings adjusted = Some adjusted.
Proof.
  intros H.
  destruct (adjust_mappings_inv mappings adjusted H)
    as (ms & props & props' & -> & Hp & Ha & ->).
  destruct (adjust_properties_inv props _ Ha)
    as (jp & mv & b & (Hjp & Njp) & (Hmv & Nmv) & (Hb & Nb)).
  rewrite (adjust_properties_present props jp mv b) in Ha by assumption.
  injection Ha as <-.
  unfold adjust_mappings. rewrite get_set_same.
  rewrite (adjust_properties_present _ (retype_payload jp)
             (strip_analyzer mv) (strip_analyzer b)).
  - rewrite retype_payload_twice, !strip_analyzer_twice.
    cbn [option_map]. f_equal. f_equal.
    rewrite (set_same "jsonPayload")
      by (rewrite !get_set_other by discriminate; apply get_set_same).
    rewrite (set_same "marketVariation")
      by (rewrite get_set_other by discriminate; apply get_set_same).
    rewrite (set_same "brand") by apply get_set_same.
    apply set_same. apply get_set_same.
  - rewrite !get_set_other by discriminate. apply get_set_same.
  - apply retype_payload_not_null. exact Njp.
  - rewrite get_set_other by discriminate. apply get_set_same.
  - apply strip_analyzer_not_null. exact Nmv.
  - apply get_set_same.
  - apply strip_analyzer_not_null. exact Nb.
Qed.

Lemma adjust_mappings_idempotent_witness :
  exists adjusted,
    adjust_mappings
      (JObj [("properties", JObj Samples.product_properties)]) =
      Some adjusted /\
    adjust_mappings adjusted = Some adjusted.
Proof.
  eexists. split; [ reflexivity | ].
  apply (adjust_mappings_idempotent
           (JObj [("properties", JObj Samples.product_properties)])).
  reflexivity.
Defined.

(** X6.  With the target index missing and a source mapping whose
    properties lack [jsonPayload], [marketVariation] or [brand] (or hold
    null there), the step is rejected with a TypeError and has asked for no
    creation. *)
Theorem provision_needs_the_three_properties (i : indices)
    (sourceIndex targetIndex : string) (body entry ms props : obj) :
  exists_index i = Resolves false ->
  getMapping i = Resolves (Some body) ->
  get_field sourceIndex body = Some (JObj entry) ->
  get_field "mappings" entry = Some (JObj ms) ->
  get_field "properties" ms = Some (JObj props) ->
  ~ (present "jsonPayload" props /\ present "marketVariation" props /\
     present "brand" props) ->
  provision i sourceIndex targetIndex =
  (Rejects TypeError, [Noted "Target index does not exist. Creating..."]).
Proof.
  intros He Hm Hentry Hms Hprops Hmissing.
  unfold provision, adjusted_mappings, adjust_mappings.
  rewrite He, Hm, Hentry, Hms, Hprops.
  destruct (adjust_properties (JObj props)) as [ adjusted | ] eqn:Ha;
    [ | reflexivity ].
  exfalso. apply Hmissing. apply adjust_properties_defined.
  eexists. exact Ha.
Qed.

(** The product mapping without [brand]. *)
Lemma provision_needs_the_three_properties_witness :
  let props := Provision.delete_field "brand" Samples.product_properties in
  provision (Samples.missing_target (Samples.mapping_body props))
    "products" "products-copy" =
  (Rejects TypeError, [Noted "Target index does not exist. Creating..."]).
Proof.
  intros props.
  apply (provision_needs_the_three_properties _ _ _
           (Samples.mapping_body props)
           [("mappings", JObj [("properties", JObj props)])]
           [("properties", JObj props)] props); try reflexivity.
  intros (_ & _ & (v & Hv & _)). discriminate Hv.
Defined.

(** X7.  The step asks for a creation only after [exists] has answered
    false, only for the target index, and only with the adjusted mapping
    of the source index; it asks at most once. *)
Theorem provision_creates_adjusted_only (i : indices)
    (sourceIndex targetIndex : string) :
  let steps := snd (provision i sourceIndex targetIndex) in
  (forall index mappings,
      In (CreateAsked index mappings) steps ->
      index = targetIndex /\
      exists_index i = Resolves false /\
      exists body,
        getMapping i = Resolves (Some body) /\
        adjusted_mappings body sourceIndex = Some mappings) /\
  (length (List.filter
             (fun s => match s with CreateAsked _ _ => true | _ => false end)
             steps) <= 1)%nat.
Proof.
  unfold provision.
  destruct (exists_index i) as [ [ | ] | e ]; cbn [snd];
    try (split; [ intros ? ? [] | simpl; lia ]).
  destruct (getMapping i) as [ [ body | ] | e ]; cbn [snd];
    try (split; [ intros ? ? [ H | [] ]; discriminate H | simpl; lia ]).
  destruct (adjusted_mappings body sourceIndex) as [ mappings | ] eqn:Ha;
    cbn [snd];
    try (split; [ intros ? ? [ H | [] ]; discriminate H | simpl; lia ]).
  destruct (create i targetIndex mappings); cbn [snd]; (split; [ | simpl; lia ]);
    intros index m Hin; simpl in Hin;
    destruct Hin as [ H | [ H | [ H | Hin ] ] ]; try discriminate H;
    try (injection H as <- <-;
         split; [ reflexivity | ]; split; [ reflexivity | ];
         exists body; split; [ reflexivity | exact Ha ]).
  - destruct Hin as [ H | [] ]. discriminate H.
  - destruct Hin.
Qed.

End ProvisionFacts.

(** ** The throttled script: attempts, pages, counters *)

Section ThrottledPassFacts.
Import Json Cluster Throttled Paging Fixtures.

Lemma scroll_calls_app (a b : list event) :
  scroll_calls (a ++ b) = (scroll_calls a + scroll_calls b)%nat.
Proof.
  induction a as [ | e a IH ]; [ reflexivity | ].
  destruct e; simpl; rewrite IH; reflexivity.
Qed.

Lemma parse_failed_scrolls (l : list hit) :
  forall st,
    scroll_calls (trace (fold_left parse_failed l st)) =
    scroll_calls (trace st).
Proof.
  induction l as [ | doc l IH ]; intros st; [ reflexivity | ].
  simpl. rewrite IH. simpl. rewrite scroll_calls_app. simpl. lia.
Qed.

(** What the retry loop leaves alone, and how many requests it sends. *)
Lemma bulk_with_retry_attempts (w : world) (operations : list bulk_line)
    (budget : nat) :
  forall retries st,
    let st' := bulk_with_retry w operations budget retries st in
    processedDocs st' = processedDocs st /\
    scroll_calls (trace st') = scroll_calls (trace st) /\
    exists k,
      (k <= budget)%nat /\ (budget = 0%nat \/ 1 <= k)%nat /\
      bulkCalls st' = (bulkCalls st + k)%nat /\
      bulks (trace st') = bulks (trace st) ++ repeat operations k.
Proof.
  induction budget as [ | budget IH ]; intros retries st.
  - simpl. split; [ reflexivity | ]. split; [ reflexivity | ].
    exists 0%nat. simpl. rewrite app_nil_r.
    split; [ lia | ]. split; [ left; reflexivity | ]. split; [ lia | ].
    reflexivity.
  - cbn [bulk_with_retry].
    destruct (target_bulk w (bulkCalls st) operations) as [ resp | e ].
    + assert (H : forall x : state,
                 processedDocs x = processedDocs (send_bulk operations st) ->
                 bulkCalls x = bulkCalls (send_bulk operations st) ->
                 scroll_calls (trace x) =
                   scroll_calls (trace (send_bulk operations st)) ->
                 bulks (trace x) = bulks (trace (send_bulk operations st)) ->
                 processedDocs x = processedDocs st /\
                 scroll_calls (trace x) = scroll_calls (trace st) /\
                 exists k,
                   (k <= S budget)%nat /\ (S budget = 0%nat \/ 1 <= k)%nat /\
                   bulkCalls x = (bulkCalls st + k)%nat /\
                   bulks (trace x) = bulks (trace st) ++ repeat operations k).
      { intros x Hp Hc Hs Hb. rewrite Hp, Hs, Hc, Hb. simpl.
        rewrite scroll_calls_app, bulks_app. simpl.
        split; [ reflexivity | ]. split; [ lia | ].
        exists 1%nat. split; [ lia | ]. split; [ right; lia | ].
        split; [ lia | ]. reflexivity. }
      destruct (errors resp); apply H; try reflexivity.
      * simpl. rewrite !scroll_calls_app. simpl. lia.
      * simpl. rewrite !bulks_app. simpl. rewrite !app_nil_r. reflexivity.
    + destruct (IH (S retries) (retry_later e (send_bulk operations st)))
        as (Hp & Hs & k & Hk & _ & Hc & Hb).
      rewrite Hp, Hs, Hc, Hb. rewrite retry_later_trace.
      simpl. rewrite !scroll_calls_app, !bulks_app. simpl.
      split; [ reflexivity | ]. split; [ lia | ].
      exists (S k). split; [ lia | ]. split; [ right; lia | ].
      split; [ lia | ]. rewrite app_nil_r, <- app_assoc. reflexivity.
Qed.

(** The bulk requests of one batch. *)
Lemma throttled_batch_requests (w : world) (targetIndex : string)
    (documents : list hit) (st : state) :
  let st' := batch w targetIndex documents st in
  processedDocs st' = (processedDocs st + length documents)%nat /\
  exists k,
    (1 <= k <= MAX_RETRIES)%nat /\
    bulkCalls st' = (bulkCalls st + k)%nat /\
    bulks (trace st') =
      bulks (trace st) ++
      repeat (index_operations w targetIndex documents) k.
Proof.
  intros st'.
  destruct (batch_trace w targetIndex documents st)
    as (Ht & _ & _ & _ & Hcalls & _ & _ & Hbulks).
  fold st' in Ht.
  destruct (parse_failed_fold (undecodable w documents)
              (logInfo "Processing batch" st)) as (_ & _ & Hp0 & _).
  set (before := fold_left parse_failed (undecodable w documents)
                   (logInfo "Processing batch" st)) in *.
  destruct (bulk_with_retry_attempts w
              (index_operations w targetIndex documents) MAX_RETRIES 0 before)
    as (Hp & _ & k & Hk & Hk1 & Hc & Hb).
  split.
  - subst st'. unfold batch. fold before.
    cbn [emit logInfo processedDocs add_processed]. rewrite Hp, Hp0.
    reflexivity.
  - exists k. split; [ | split ].
    + destruct Hk1 as [ H | H ]; [ discriminate H | lia ].
    + subst st'. unfold batch. fold before.
      cbn [emit logInfo bulkCalls add_processed]. rewrite Hc, Hcalls.
      reflexivity.
    + rewrite Ht, bulks_app, Hb, Hbulks. simpl. apply app_nil_r.
Qed.

(** X8.  Whatever the target answers, a batch of the throttled script sends
    between one and [MAX_RETRIES] bulk requests, all with the same body, and
    adds the size of the page to [processedDocs]. *)
Theorem throttled_batch_attempts (w : world) (targetIndex : string)
    (documents : list hit) (st : state) :
  let st' := batch w targetIndex documents st in
  processedDocs st' = (processedDocs st + length documents)%nat /\
  exists k,
    (1 <= k <= MAX_RETRIES)%nat /\
    bulkCalls st' = (bulkCalls st + k)%nat /\
    bulks (trace st') =
      bulks (trace st) ++
      repeat (index_operations w targetIndex documents) k.
Proof. exact (throttled_batch_requests w targetIndex documents st). Qed.

Lemma throttled_batch_scrolls (w : world) (targetIndex : string)
    (documents : list hit) (st : state) :
  scroll_calls (trace (batch w targetIndex documents st)) =
  scroll_calls (trace st).
Proof.
  destruct (batch_trace w targetIndex documents st) as (Ht & _).
  rewrite Ht, scroll_calls_app.
  destruct (bulk_with_retry_attempts w
              (index_operations w targetIndex documents) MAX_RETRIES 0
              (fold_left parse_failed (undecodable w documents)
                 (logInfo "Processing batch" st))) as (_ & Hs & _).
  rewrite Hs, parse_failed_scrolls. simpl. rewrite scroll_calls_app. simpl.
  lia.
Qed.

Lemma throttled_batches_pages (w : world) (targetIndex : string)
    (rest : list (list hit)) :
  forall first st,
    exists st',
      batches w targetIndex first
        (map (fun page => Resolves (Some page)) rest) st = Normal st' /\
      processedDocs st' =
        (processedDocs st + length (concat (consumed (first :: rest))))%nat /\
      scroll_calls (trace st') =
        (scroll_calls (trace st) + length (consumed (first :: rest)))%nat /\
      (length (bulks (trace st)) + length (consumed (first :: rest))
       <= length (bulks (trace st')))%nat /\
      (length (bulks (trace st'))
       <= length (bulks (trace st))
          + MAX_RETRIES * length (consumed (first :: rest)))%nat.
Proof.
  induction rest as [ | next rest IH ]; intros first st.
  - destruct first as [ | doc first ].
    + exists st. simpl. repeat split; lia.
    + eexists. split; [ reflexivity | ].
      destruct (throttled_batch_requests w targetIndex (doc :: first) st)
        as (Hp & k & Hk & _ & Hb).
      pose proof (throttled_batch_scrolls w targetIndex (doc :: first) st)
        as Hs.
      cbn [consumed concat length]. rewrite app_nil_r.
      cbn [emit trace processedDocs].
      rewrite scroll_calls_app, bulks_app, Hs, Hp, Hb. simpl.
      rewrite app_nil_r, !length_app, repeat_length. unfold MAX_RETRIES in *.
      repeat split; lia.
  - destruct first as [ | doc first ].
    + exists st. simpl. repeat split; lia.
    + cbn [map batches].
      destruct (IH next (emit ScrollAsked
                           (batch w targetIndex (doc :: first) st)))
        as (st' & Hrun & Hp' & Hs' & Hlo & Hhi).
      exists st'. split; [ exact Hrun | ].
      destruct (throttled_batch_requests w targetIndex (doc :: first) st)
        as (Hp & k & Hk & _ & Hb).
      pose proof (throttled_batch_scrolls w targetIndex (doc :: first) st)
        as Hs.
      change (consumed ((doc :: first) :: next :: rest))
        with ((doc :: first) :: consumed (next :: rest)).
      remember (consumed (next :: rest)) as pages eqn:Epages. clear Epages.
      cbn [emit trace processedDocs] in Hp', Hs', Hlo, Hhi.
      rewrite scroll_calls_app, Hs in Hs'. rewrite Hp in Hp'.
      rewrite bulks_app, Hb in Hlo, Hhi. cbn [scroll_calls bulks] in Hs', Hlo, Hhi.
      rewrite app_nil_r, length_app, repeat_length in Hlo, Hhi.
      cbn [concat length]. rewrite length_app. cbn [length] in *.
      unfold MAX_RETRIES in *. repeat split; lia.
Qed.

(** X9.  With a source that answers every call, a pass of the throttled
    script completes whatever the target does: it has worked on the pages
    before the first empty one, asked for one scroll per such page, counted
    all their records in [processedDocs], and sent between one and
    [MAX_RETRIES] bulk requests per page. *)
Theorem throttled_pass_pages (w : world) (sourceIndex targetIndex : string)
    (first : list hit) (rest : list (list hit)) :
  serves w first rest ->
  exists st,
    syncData w sourceIndex targetIndex = Normal st /\
    processedDocs st = length (concat (consumed (first :: rest))) /\
    scroll_calls (trace st) = length (consumed (first :: rest)) /\
    (length (consumed (first :: rest)) <= length (bulks (trace st))
     <= MAX_RETRIES * length (consumed (first :: rest)))%nat.
Proof.
  intros ((total & Hcount) & Hprov & Hsearch & Hscroll & Hclear).
  unfold syncData, syncData_try.
  rewrite Hprov, Hcount, Hsearch, Hscroll.
  destruct (throttled_batches_pages w targetIndex rest first
              (logInfo "Total documents to sync"
                 (logInfo "Starting sync" initial)))
    as (st' & -> & Hp & Hs & Hlo & Hhi).
  rewrite Hclear. cbn [try_catch]. eexists. split; [ reflexivity | ].
  simpl in Hp, Hs, Hlo, Hhi |- *.
  rewrite !scroll_calls_app, !bulks_app. simpl. rewrite !app_nil_r.
  repeat split; lia.
Qed.

(** Three pages, the second empty: only the first is worked on. *)
Lemma throttled_pass_pages_witness :
  exists st,
    syncData (calm [[doc_a; doc_b]; []; [doc_c]]) "source" "target" =
      Normal st /\
    processedDocs st = 2%nat /\ scroll_calls (trace st) = 1%nat.
Proof.
  destruct (throttled_pass_pages (calm [[doc_a; doc_b]; []; [doc_c]])
              "source" "target" [doc_a; doc_b] [[]; [doc_c]])
    as (st & Hrun & Hp & Hs & _).
  - repeat split; try reflexivity. eexists. reflexivity.
  - exists st. split; [ exact Hrun | ]. split; [ exact Hp | exact Hs ].
Defined.

End ThrottledPassFacts.

(** ** The throttled script: counters of a batch, waits of a pass *)

Section ThrottledCounterFacts.
Import Json Cluster Throttled ThrottledSteps Fixtures.

(** X10.  A batch of the throttled script that is written at its
    [k+1]-th attempt, [k < MAX_RETRIES], has doubled the delay [k] times and
    has added to [failedDocs] the records that did not decode and, only
    when the response flags [errors], the items that carry an error. *)
Theorem throttled_batch_written (w : world) (targetIndex : string)
    (documents : list hit) (st : state) (k : nat) (cause : nat -> js_error)
    (resp : bulk_response) :
  (k < MAX_RETRIES)%nat ->
  (forall j, (j < k)%nat ->
     target_bulk w (bulkCalls st + j)
       (index_operations w targetIndex documents) = Rejects (cause j)) ->
  target_bulk w (bulkCalls st + k)
    (index_operations w targetIndex documents) = Resolves resp ->
  let st' := batch w targetIndex documents st in
  failedDocs st' =
    (failedDocs st + length (undecodable w documents)
     + if errors resp then index_errors resp else 0)%nat /\
  delay st' = Nat.iter k backoff (delay st) /\
  bulks (trace st') =
    bulks (trace st) ++
    repeat (index_operations w targetIndex documents) (S k).
Proof.
  intros Hk Hrej Hres st'.
  destruct (batch_trace w targetIndex documents st)
    as (Ht & Hd & Hfailed & Hdelay & Hcalls & Hf & _ & Hbulks).
  fold st' in Ht, Hd, Hfailed.
  set (before := fold_left parse_failed (undecodable w documents)
                   (logInfo "Processing batch" st)) in *.
  set (operations := index_operations w targetIndex documents) in *.
  destruct (rejected_run w operations k MAX_RETRIES 0 before cause
              ltac:(lia))
    as (st1 & Hrun & Hd1 & Hc1 & Hf1 & _ & _ & Hb1 & _).
  { intros j Hj. rewrite Hcalls. apply Hrej. exact Hj. }
  rewrite Hrun in Ht, Hd, Hfailed.
  destruct (MAX_RETRIES - k)%nat as [ | budget ] eqn:Eb; [ lia | ].
  cbn [bulk_with_retry] in Ht, Hd, Hfailed.
  rewrite Hc1, Hcalls, Hres in Ht, Hd, Hfailed.
  assert (Hb : bulks (trace (send_bulk operations st1)) =
               bulks (trace st) ++ repeat operations (S k)).
  { simpl. rewrite bulks_app, Hb1, Hbulks. simpl.
    rewrite <- app_assoc. f_equal. clear.
    induction k as [ | k IH ]; [ reflexivity | ].
    simpl. rewrite IH. reflexivity. }
  destruct (errors resp).
  - split; [ | split ].
    + rewrite Hfailed. simpl. rewrite Hf1, Hf. lia.
    + rewrite Hd. simpl. rewrite Hd1, Hdelay. reflexivity.
    + rewrite Ht, bulks_app. cbn [logError emit trace add_failed].
      rewrite bulks_app. cbn [send_bulk emit trace] in Hb |- *.
      rewrite Hb. simpl. rewrite !app_nil_r. reflexivity.
  - split; [ | split ].
    + rewrite Hfailed. simpl. rewrite Hf1, Hf. lia.
    + rewrite Hd. simpl. rewrite Hd1, Hdelay. reflexivity.
    + rewrite Ht, bulks_app, Hb. simpl. rewrite !app_nil_r. reflexivity.
Qed.

(** Record [c], which does not decode, written at the second attempt and
    refused by the target: it is counted twice. *)
Lemma throttled_batch_written_witness :
  let refusing := fun (n : nat) (body : list bulk_line) =>
    if (n <? 1)%nat then Rejects unreachable
    else Resolves {| errors := true;
                     items := [{| kind := ItemIndex; item_error := true |}] |} in
  let w := with_bulk refusing (calm [[doc_c]]) in
  let st' := batch w "target" [doc_c] initial in
  failedDocs st' = 2%nat /\ delay st' = 20000 /\
  length (bulks (trace st')) = 2%nat.
Proof.
  intros refusing w st'.
  destruct (throttled_batch_written w "target" [doc_c] initial 1
              (fun _ => unreachable)
              {| errors := true;
                 items := [{| kind := ItemIndex; item_error := true |}] |})
    as (Hf & Hd & Hb).
  - unfold MAX_RETRIES. lia.
  - intros j Hj. destruct j as [ | j ]; [ reflexivity | lia ].
  - reflexivity.
  - fold st' in Hf, Hd, Hb. split; [ exact Hf | ]. split; [ exact Hd | ].
    rewrite Hb. reflexivity.
Defined.

(** X11.  A batch of the throttled script given up after [MAX_RETRIES]
    rejections counts in [processedDocs] like any other, adds nothing to
    [failedDocs] but the records that did not decode, and leaves the delay
    doubled [MAX_RETRIES] times. *)
Theorem throttled_batch_given_up (w : world) (targetIndex : string)
    (documents : list hit) (st : state) (cause : nat -> js_error) :
  (forall j, (j < MAX_RETRIES)%nat ->
     target_bulk w (bulkCalls st + j)
       (index_operations w targetIndex documents) = Rejects (cause j)) ->
  let st' := batch w targetIndex documents st in
  processedDocs st' = (processedDocs st + length documents)%nat /\
  failedDocs st' = (failedDocs st + length (undecodable w documents))%nat /\
  delay st' = Nat.iter MAX_RETRIES backoff (delay st).
Proof.
  intros Hrej st'.
  destruct (throttled_exhausted w targetIndex documents st cause Hrej)
    as (_ & _ & Hf).
  destruct (throttled_batch_requests w targetIndex documents st) as (Hp & _).
  split; [ exact Hp | ]. split; [ exact Hf | ].
  destruct (batch_trace w targetIndex documents st)
    as (_ & Hd & _ & Hdelay & Hcalls & _).
  fold st' in Hd.
  destruct (rejected_run w (index_operations w targetIndex documents)
              MAX_RETRIES MAX_RETRIES 0
              (fold_left parse_failed (undecodable w documents)
                 (logInfo "Processing batch" st)) cause (Nat.le_refl _))
    as (st1 & Hrun & Hd1 & _).
  { intros j Hj. rewrite Hcalls. apply Hrej. exact Hj. }
  rewrite Nat.sub_diag in Hrun. cbn [bulk_with_retry] in Hrun.
  rewrite Hd, Hrun, Hd1, Hdelay. reflexivity.
Qed.

Lemma throttled_batch_given_up_witness :
  let w := with_bulk (failing_first 5 ItemIndex) (calm [[doc_a]]) in
  let st' := batch w "target" [doc_a] initial in
  processedDocs st' = 1%nat /\ failedDocs st' = 0%nat /\ delay st' = 60000.
Proof.
  intros w st'.
  destruct (throttled_batch_given_up w "target" [doc_a] initial
              (fun _ => unreachable)) as (Hp & Hf & Hd).
  - intros j Hj. unfold MAX_RETRIES in Hj.
    do 5 (destruct j as [ | j ]; [ reflexivity | ]). lia.
  - fold st' in Hp, Hf, Hd. split; [ exact Hp | ]. split; [ exact Hf | ].
    rewrite Hd. reflexivity.
Defined.

(** *** Every change of the state is a step *)

Lemma moves_parse_failed (l : list hit) :
  forall st, moves st (fold_left parse_failed l st).
Proof.
  induction l as [ | doc l IH ]; intros st; [ apply moves_refl | ].
  simpl. eapply moves_trans; [ | apply IH ].
  unfold parse_failed. eapply moves_trans; [ apply moves_log | ].
  apply moves_failed.
Qed.

Lemma moves_bulk_with_retry (w : world) (operations : list bulk_line)
    (budget : nat) :
  forall retries st, moves st (bulk_with_retry w operations budget retries st).
Proof.
  induction budget as [ | budget IH ]; intros retries st;
    [ apply moves_refl | ].
  cbn [bulk_with_retry].
  destruct (target_bulk w (bulkCalls st) operations) as [ resp | e ].
  - destruct (errors resp).
    + eapply moves_trans; [ apply moves_send | ].
      eapply moves_trans; [ apply moves_failed | ]. apply moves_log.
    + apply moves_send.
  - eapply moves_trans; [ | apply IH ].
    eapply moves_trans; [ apply moves_send | ]. unfold retry_later.
    eapply moves_trans; [ apply moves_log | ].
    eapply moves_trans; [ apply moves_wait | ].
    apply (moves_backoff
             (emit (Waited (delay _))
                (logError "Bulk insert failed. Retrying..." (Some e)
                   (send_bulk operations st)))).
Qed.

Lemma moves_batch (w : world) (targetIndex : string) (documents : list hit)
    (st : state) :
  moves st (batch w targetIndex documents st).
Proof.
  unfold batch.
  eapply moves_trans; [ apply moves_log | ].
  eapply moves_trans; [ apply moves_parse_failed | ].
  eapply moves_trans; [ apply moves_bulk_with_retry | ].
  eapply moves_trans; [ apply moves_processed | ].
  eapply moves_trans; [ apply moves_log | ].
  apply (moves_wait (logInfo _ _)).
Qed.

Lemma moves_batches (w : world) (targetIndex : string)
    (pending : list (call (option (list hit)))) :
  forall documents st,
    moves st (state_of (batches w targetIndex documents pending st)).
Proof.
  induction pending as [ | answer pending IH ]; intros documents st;
    (destruct documents as [ | doc documents ]; [ apply moves_refl | ]);
    cbn [batches];
    assert (H : moves st (emit ScrollAsked
                            (batch w targetIndex (doc :: documents) st)))
      by (eapply moves_trans; [ apply moves_batch | apply moves_scroll ]).
  - exact H.
  - destruct answer as [ [ next | ] | e ]; [ | exact H | exact H ].
    eapply moves_trans; [ exact H | apply IH ].
Qed.

Lemma moves_syncData (w : world) (sourceIndex targetIndex : string) :
  moves initial (state_of (syncData w sourceIndex targetIndex)).
Proof.
  assert (Hcatch : forall c : completion state,
             moves initial (state_of c) ->
             moves initial
               (state_of
                  (try_catch c
                     (fun error st =>
                        Normal (logError "Error during sync:"
                                  (Some error) st))))).
  { intros [ s | s | e s ] Hc; [ exact Hc | exact Hc | ].
    simpl. eapply moves_trans; [ exact Hc | apply moves_log ]. }
  unfold syncData. apply Hcatch. unfold syncData_try.
  assert (H0 : moves initial (logInfo "Starting sync" initial))
    by apply moves_log.
  destruct (provisioning w); [ | exact H0 ].
  destruct (source_count w) as [ [ totalDocs | ] | e ];
    [ | exact H0 | exact H0 ].
  assert (H1 : moves initial (logInfo "Total documents to sync"
                                (logInfo "Starting sync" initial)))
    by (eapply moves_trans; [ exact H0 | apply moves_log ]).
  destruct (source_search w) as [ [ documents | ] | e ];
    [ | exact H1 | exact H1 ].
  pose proof (moves_batches w targetIndex (source_scroll w) documents
                (logInfo "Total documents to sync"
                   (logInfo "Starting sync" initial))) as H2.
  destruct (batches w targetIndex documents (source_scroll w) _)
    as [ s | s | e s ]; cbn [state_of] in *;
    try (eapply moves_trans; [ exact H1 | exact H2 ]).
  destruct (source_clearScroll w); cbn [state_of];
    [ | eapply moves_trans; [ exact H1 | exact H2 ] ].
  eapply moves_trans; [ exact H1 | ]. eapply moves_trans; [ exact H2 | ].
  eapply moves_trans; apply moves_log.
Qed.

Lemma sorted_snoc (l : list Z) (x : Z) :
  StronglySorted Z.le l -> Forall (fun y => y <= x) l ->
  StronglySorted Z.le (l ++ [x]).
Proof.
  induction 1 as [ | a l Hs IH Ha ]; intros Hx; simpl.
  - constructor; constructor.
  - apply Forall_cons in Hx as [Hax Hx]. constructor.
    + apply IH. exact Hx.
    + apply Forall_app. split; [ exact Ha | ]. constructor; [ exact Hax | ].
      constructor.
Qed.

Lemma steady_moves (a b : state) : moves a b -> steady a -> steady b.
Proof.
  induction 1 as [ st | a b c _ IH1 _ IH2 | lv text cause st | st
                 | operations st | n st | n st | st | st ];
    intros (Hd & Hle & Hs); unfold steady in *.
  - auto.
  - apply IH2. apply IH1. auto.
  - simpl. rewrite waits_app. simpl. rewrite app_nil_r. auto.
  - simpl. rewrite waits_app. simpl. rewrite app_nil_r. auto.
  - simpl. rewrite waits_app. simpl. rewrite app_nil_r. auto.
  - auto.
  - auto.
  - simpl. rewrite waits_app. simpl. split; [ exact Hd | ]. split.
    + apply Forall_app. split; [ exact Hle | ].
      constructor; [ lia | constructor ].
    + apply sorted_snoc; assumption.
  - simpl. pose proof (backoff_bounds _ Hd) as Hb.
    split; [ exact Hb | ]. split; [ | exact Hs ].
    eapply Forall_impl; [ exact Hle | ].
    intros ms Hms. simpl in Hms. unfold backoff, BASE_DELAY, MAX_DELAY in *.
    lia.
Qed.

(** X12.  Along a pass of the throttled script the waits never decrease:
    each wait is at least as long as every wait before it, and the delay
    the pass ends with, between [BASE_DELAY] and [MAX_DELAY], is at least
    as long as all of them. *)
Theorem throttled_waits_never_decrease (w : world)
    (sourceIndex targetIndex : string) :
  let st := state_of (syncData w sourceIndex targetIndex) in
  StronglySorted Z.le (waits (trace st)) /\
  Forall (fun ms => ms <= delay st) (waits (trace st)) /\
  BASE_DELAY <= delay st <= MAX_DELAY.
Proof.
  intros st.
  destruct (steady_moves initial st (moves_syncData w sourceIndex targetIndex))
    as (Hd & Hle & Hs).
  - split; [ simpl; unfold BASE_DELAY, MAX_DELAY; lia | ].
    split; constructor.
  - auto.
Qed.

End ThrottledCounterFacts.

(** ** The restart script: attempts, pages, the restart timer *)

Section RestartPassFacts.
Import Json Cluster Restart Paging Fixtures.

Lemma restart_parse_failed_frame (l : list hit) :
  forall st,
    let st' := fold_left parse_failed l st in
    processedDocs st' = processedDocs st /\
    waits (trace st') = waits (trace st) /\
    scroll_calls (trace st') = scroll_calls (trace st).
Proof.
  induction l as [ | doc l IH ]; intros st.
  - simpl. repeat split.
  - simpl. destruct (IH (parse_failed st doc)) as (H1 & H2 & H3).
    rewrite H1, H2, H3. simpl. rewrite waits_app, scroll_calls_app. simpl.
    rewrite app_nil_r. repeat split; lia.
Qed.

(** The state a batch hands to its retry loop. *)
Lemma restart_batch_prelude (w : world) (targetIndex : string)
    (documents : list hit) (st : state) :
  exists before,
    batch w targetIndex documents st =
      bulk_with_retry w (index_operations w targetIndex documents) documents 3
        before /\
    processedDocs before = (processedDocs st + length documents)%nat /\
    bulkCalls before = bulkCalls st /\
    bulks (trace before) = bulks (trace st) /\
    waits (trace before) = waits (trace st) /\
    scroll_calls (trace before) = scroll_calls (trace st).
Proof.
  eexists. split; [ reflexivity | ].
  set (st0 := logDebug "Current scroll ID"
                (logInfo "Processing batch"
                   (add_processed (length documents) st))).
  destruct (restart_parse_failed_fold (undecodable w documents) st0)
    as (Hc & _ & Hb & _).
  destruct (restart_parse_failed_frame (undecodable w documents) st0)
    as (Hp & Hw & Hs).
  rewrite Hp, Hc, Hb, Hw, Hs. subst st0. simpl.
  rewrite !bulks_app, !waits_app, !scroll_calls_app. simpl.
  rewrite !app_nil_r. repeat split; lia.
Qed.

(** X13.  Whatever the target answers, a batch of the restart script sends
    between one and three bulk requests, all with the same body; it waits
    1000 ms before the second and 2000 ms before the third and makes no
    other wait; it is thrown out of only after three requests; and it has
    counted the page in [processedDocs] before the first request. *)
Theorem restart_batch_attempts (w : world) (targetIndex : string)
    (documents : list hit) (st : state) :
  let c := batch w targetIndex documents st in
  processedDocs (state_of c) = (processedDocs st + length documents)%nat /\
  scroll_calls (trace (state_of c)) = scroll_calls (trace st) /\
  exists k,
    (1 <= k <= 3)%nat /\
    bulks (trace (state_of c)) =
      bulks (trace st) ++
      repeat (index_operations w targetIndex documents) k /\
    waits (trace (state_of c)) =
      waits (trace st) ++ firstn (k - 1) [1000; 2000] /\
    (is_thrown c = true -> k = 3%nat).
Proof.
  intros c. subst c.
  destruct (restart_batch_prelude w targetIndex documents st)
    as (before & -> & Hp & _ & Hb & Hw & Hs).
  remember (index_operations w targetIndex documents) as operations
    eqn:Eops. clear Eops.
  rewrite <- Hp, <- Hb, <- Hw, <- Hs. clear Hp Hb Hw Hs.
  cbn [bulk_with_retry].
  destruct (target_bulk w (bulkCalls before) operations) as [ r1 | e1 ].
  { split; [ | split ]; [ destruct (errors r1); reflexivity | | ].
    - destruct (errors r1); simpl; rewrite !scroll_calls_app; simpl; lia.
    - exists 1%nat. split; [ lia | ].
      destruct (errors r1); simpl; rewrite !bulks_app, !waits_app; simpl;
        rewrite !app_nil_r; repeat split; discriminate. }
  cbn [send_bulk emit logError bulkCalls].
  match goal with
  | |- context [ target_bulk w ?n operations ] =>
      destruct (target_bulk w n operations) as [ r2 | e2 ]
  end.
  { split; [ | split ]; [ destruct (errors r2); reflexivity | | ].
    - destruct (errors r2); simpl; rewrite !scroll_calls_app; simpl; lia.
    - exists 2%nat. split; [ lia | ].
      destruct (errors r2); simpl; rewrite !bulks_app, !waits_app; simpl;
        rewrite !app_nil_r, <- !app_assoc; repeat split; discriminate. }
  cbn [send_bulk emit logError bulkCalls].
  match goal with
  | |- context [ target_bulk w ?n operations ] =>
      destruct (target_bulk w n operations) as [ r3 | e3 ]
  end.
  { split; [ | split ]; [ destruct (errors r3); reflexivity | | ].
    - destruct (errors r3); simpl; rewrite !scroll_calls_app; simpl; lia.
    - exists 3%nat. split; [ lia | ].
      destruct (errors r3); simpl; rewrite !bulks_app, !waits_app; simpl;
        rewrite !app_nil_r, <- !app_assoc; repeat split; discriminate. }
  split; [ reflexivity | ]. split.
  - simpl. rewrite !scroll_calls_app. simpl. lia.
  - exists 3%nat. split; [ lia | ].
    simpl. rewrite !bulks_app, !waits_app. simpl.
    rewrite !app_nil_r, <- !app_assoc. repeat split.
Qed.

Lemma restart_batch_resolved (w : world) (targetIndex : string)
    (documents : list hit) (st : state) :
  (forall n body, exists resp, target_bulk w n body = Resolves resp) ->
  exists st',
    batch w targetIndex documents st = Normal st' /\
    processedDocs st' = (processedDocs st + length documents)%nat /\
    scroll_calls (trace st') = scroll_calls (trace st) /\
    length (bulks (trace st')) = S (length (bulks (trace st))) /\
    waits (trace st') = waits (trace st).
Proof.
  intros Hcalm.
  destruct (restart_batch_prelude w targetIndex documents st)
    as (before & -> & Hp & _ & Hb & Hw & Hs).
  rewrite <- Hp, <- Hb, <- Hw, <- Hs. cbn [bulk_with_retry].
  destruct (Hcalm (bulkCalls before)
              (index_operations w targetIndex documents)) as [resp ->].
  eexists. split; [ reflexivity | ].
  destruct (errors resp); simpl;
    rewrite ?scroll_calls_app, ?bulks_app, ?waits_app; simpl;
    rewrite ?scroll_calls_app, ?bulks_app, ?waits_app, ?length_app; simpl;
    rewrite ?app_nil_r; repeat split; lia.
Qed.

Lemma restart_batches_pages (w : world) (targetIndex : string)
    (rest : list (list hit)) :
  (forall n body, exists resp, target_bulk w n body = Resolves resp) ->
  forall first st,
    exists st',
      batches w targetIndex first
        (map (fun page => Resolves (Some page)) rest) st = Normal st' /\
      processedDocs st' =
        (processedDocs st + length (concat (consumed (first :: rest))))%nat /\
      scroll_calls (trace st') =
        (scroll_calls (trace st) + length (consumed (first :: rest)))%nat /\
      length (bulks (trace st')) =
        (length (bulks (trace st)) + length (consumed (first :: rest)))%nat /\
      waits (trace st') = waits (trace st).
Proof.
  intros Hcalm.
  induction rest as [ | next rest IH ]; intros first st.
  - destruct first as [ | doc first ].
    + exists st. simpl. repeat split; lia.
    + destruct (restart_batch_resolved w targetIndex (doc :: first) st Hcalm)
        as (st1 & Hrun & Hp & Hs & Hb & Hw).
      cbn [map batches]. rewrite Hrun. eexists. split; [ reflexivity | ].
      cbn [consumed concat]. rewrite app_nil_r. simpl.
      rewrite !scroll_calls_app, !bulks_app, !waits_app. simpl.
      rewrite !app_nil_r, Hp, Hs, Hb, Hw. simpl. repeat split; lia.
  - destruct first as [ | doc first ].
    + exists st. simpl. repeat split; lia.
    + destruct (restart_batch_resolved w targetIndex (doc :: first) st Hcalm)
        as (st1 & Hrun & Hp & Hs & Hb & Hw).
      cbn [map batches]. rewrite Hrun.
      destruct (IH next (logDebug "Retrieved next batch"
                           (emit ScrollAsked st1)))
        as (st' & Hrun' & Hp' & Hs' & Hb' & Hw').
      exists st'. split; [ exact Hrun' | ].
      change (consumed ((doc :: first) :: next :: rest))
        with ((doc :: first) :: consumed (next :: rest)).
      remember (consumed (next :: rest)) as pages eqn:Epages. clear Epages.
      cbn [logDebug emit trace processedDocs] in Hp', Hs', Hb', Hw'.
      rewrite !scroll_calls_app in Hs'. rewrite !bulks_app in Hb'.
      rewrite !waits_app in Hw'.
      cbn [scroll_calls bulks waits] in Hs', Hb', Hw'.
      rewrite !app_nil_r in Hb', Hw'.
      cbn [concat length]. rewrite length_app. cbn [length] in *.
      repeat split; try lia. congruence.
Qed.

(** X14.  With a source that answers every call and a target that answers
    every bulk request, a pass of the restart script completes: it has
    worked on the pages before the first empty one with one bulk request
    and one scroll call each, without a single wait, and has counted their
    records in [processedDocs]. *)
Theorem restart_pass_pages (w : world) (sourceIndex targetIndex : string)
    (first : list hit) (rest : list (list hit)) :
  serves w first rest ->
  (forall n body, exists resp, target_bulk w n body = Resolves resp) ->
  exists st,
    syncData w sourceIndex targetIndex = Normal st /\
    processedDocs st = length (concat (consumed (first :: rest))) /\
    scroll_calls (trace st) = length (consumed (first :: rest)) /\
    length (bulks (trace st)) = length (consumed (first :: rest)) /\
    waits (trace st) = [].
Proof.
  intros ((total & Hcount) & Hprov & Hsearch & Hscroll & Hclear) Hcalm.
  unfold syncData, syncData_try.
  rewrite Hprov, Hcount, Hsearch, Hscroll.
  destruct (restart_batches_pages w targetIndex rest Hcalm first
              (logDebug "Starting sync"
                 (logInfo "Total documents to sync" initial)))
    as (st' & -> & Hp & Hs & Hb & Hw).
  rewrite Hclear. cbn [try_catch]. eexists. split; [ reflexivity | ].
  simpl in Hp, Hs, Hb, Hw |- *.
  rewrite !scroll_calls_app, !bulks_app, !waits_app, Hw. simpl.
  rewrite !app_nil_r. repeat split; lia.
Qed.

Lemma restart_pass_pages_witness :
  exists st,
    syncData (calm [[doc_a; doc_b]; [doc_c]]) "source" "target" = Normal st /\
    processedDocs st = 3%nat /\ length (bulks (trace st)) = 2%nat /\
    waits (trace st) = [].
Proof.
  destruct (restart_pass_pages (calm [[doc_a; doc_b]; [doc_c]])
              "source" "target" [doc_a; doc_b] [[doc_c]])
    as (st & Hrun & Hp & _ & Hb & Hw).
  - repeat split; try reflexivity. eexists. reflexivity.
  - intros n body. eexists. reflexivity.
  - exists st. repeat split; assumption.
Defined.

Lemma no_timer_syncData_thrown (w : world) (sourceIndex targetIndex : string) :
  is_normal (syncData w sourceIndex targetIndex) = false ->
  no_timer (state_of (syncData w sourceIndex targetIndex)).
Proof.
  unfold syncData, syncData_try.
  assert (Hlog : forall (text : string) cause st,
             no_timer st -> no_timer (logError text cause st))
    by (intros; apply no_timer_emit; [ reflexivity | assumption ]).
  assert (H0 : no_timer initial) by reflexivity.
  destruct (provisioning w); [ | intros _; apply Hlog; exact H0 ].
  destruct (source_count w) as [ [ totalDocs | ] | e ];
    try (intros _; apply Hlog; exact H0).
  set (st0 := logDebug "Starting sync"
                (logInfo "Total documents to sync" initial)).
  assert (H1 : no_timer st0) by reflexivity.
  destruct (source_search w) as [ [ documents | ] | e ];
    try (intros _; cbn [try_catch state_of]; repeat apply Hlog; exact H1).
  pose proof (no_timer_batches w targetIndex (source_scroll w) documents st0 H1)
    as Hb.
  destruct (batches w targetIndex documents (source_scroll w) st0)
    as [ s | s | e s ]; cbn [state_of try_catch] in Hb |- *.
  - discriminate.
  - intros _. exact Hb.
  - intros _. apply Hlog. exact Hb.
Qed.

(** X15.  A pass of the restart script sets the restart timer, once and
    for 5000 ms, when it completes, and sets none when it is thrown out
    of. *)
Theorem restart_timer_iff_completed (w : world)
    (sourceIndex targetIndex : string) :
  restart_timers (trace (state_of (syncData w sourceIndex targetIndex))) =
  if is_normal (syncData w sourceIndex targetIndex) then [5000] else [].
Proof.
  destruct (is_normal (syncData w sourceIndex targetIndex)) eqn:E.
  - apply completed_pass_sets_timer. exact E.
  - apply no_timer_syncData_thrown. exact E.
Qed.

End RestartPassFacts.

(** ** The differential script: what a batch asks and sends *)

Section DifferentialBatchFacts.
Import Json Cluster Scheduler Differential Paging Fixtures.

Lemma hasDocumentChanged_effects (w : world) (index docId : string)
    (newData : obj) (st : state) :
  let st' := snd (hasDocumentChanged w index docId newData st) in
  getCalls st' = S (getCalls st) /\
  trace st' =
    trace st ++
    match target_get w (getCalls st) index docId with
    | Rejects e =>
        match statusCode e with
        | Some code =>
            if code =? 404 then []
            else [Logged ERROR ("Error checking document " +:+ docId) (Some e)]
        | None =>
            [Logged ERROR ("Error checking document " +:+ docId) (Some e)]
        end
    | Resolves _ => []
    end.
Proof.
  unfold hasDocumentChanged, changed_verdict.
  destruct (target_get w (getCalls st) index docId)
    as [ [ | | existingData ] | e ]; simpl; rewrite ?app_nil_r; auto.
  - destruct (String.eqb _ _); simpl; rewrite ?app_nil_r; auto.
  - destruct (statusCode e) as [ code | ]; [ destruct (code =? 404) | ];
      simpl; rewrite ?app_nil_r; auto.
Qed.

Lemma hasDocumentChanged_bulks (w : world) (index docId : string)
    (newData : obj) (st : state) :
  bulks (trace (snd (hasDocumentChanged w index docId newData st))) =
  bulks (trace st).
Proof.
  destruct (hasDocumentChanged_effects w index docId newData st) as (_ & Ht).
  rewrite Ht, bulks_app.
  destruct (target_get w (getCalls st) index docId) as [ r | e ];
    [ apply app_nil_r | ].
  destruct (statusCode e) as [ code | ]; [ destruct (code =? 404) | ];
    simpl; apply app_nil_r.
Qed.

Lemma decodable_cons_some (w : world) (doc : hit) (documents : list hit)
    (source : obj) :
  decode w doc = Some source ->
  decodable w (doc :: documents) = doc :: decodable w documents /\
  undecodable w (doc :: documents) = undecodable w documents.
Proof. intros H. unfold decodable, undecodable. simpl. rewrite H. auto. Qed.

Lemma decodable_cons_none (w : world) (doc : hit) (documents : list hit) :
  decode w doc = None ->
  decodable w (doc :: documents) = decodable w documents /\
  undecodable w (doc :: documents) = doc :: undecodable w documents.
Proof. intros H. unfold decodable, undecodable. simpl. rewrite H. auto. Qed.

(** The [for] loop, whatever the target answers. *)
Lemma collect_sends_decodable (w : world) (targetIndex : string)
    (documents : list hit) :
  forall operations st operations' st',
    collect w targetIndex documents operations st = (operations', st') ->
    exists sent,
      sublist sent (decodable w documents) /\
      operations' = operations ++ flat_map (update_lines w targetIndex) sent /\
      getCalls st' = (getCalls st + length (decodable w documents))%nat /\
      failedDocs st' = (failedDocs st + length (undecodable w documents))%nat /\
      (skippedDocs st' + length sent =
       skippedDocs st + length (decodable w documents))%nat /\
      bulkCalls st' = bulkCalls st /\
      bulks (trace st') = bulks (trace st).
Proof.
  induction documents as [ | doc documents IH ];
    intros operations st operations' st' H.
  - injection H as <- <-. exists []. simpl. rewrite app_nil_r.
    repeat split; try lia. constructor.
  - cbn [collect] in H. destruct (decode w doc) as [ source | ] eqn:Hd.
    + destruct (decodable_cons_some w doc documents source Hd) as [-> ->].
      pose proof (hasDocumentChanged_effects w targetIndex (_id doc) source st)
        as (Hg & _).
      pose proof (hasDocumentChanged_counters w targetIndex (_id doc) source st)
        as (_ & _ & Hs & Hf & Hc).
      pose proof (hasDocumentChanged_bulks w targetIndex (_id doc) source st)
        as Hb.
      destruct (hasDocumentChanged w targetIndex (_id doc) source st)
        as [needsUpdate st1].
      cbn [snd] in Hg, Hs, Hf, Hc, Hb.
      destruct needsUpdate.
      * destruct (IH _ _ _ _ H) as (sent & Hsub & -> & G & F & S & C & B).
        exists (doc :: sent). split; [ constructor; exact Hsub | ].
        split.
        { cbn [flat_map]. unfold update_lines at 2. rewrite Hd.
          rewrite <- app_assoc. reflexivity. }
        cbn [length]. repeat split; try lia; congruence.
      * destruct (IH _ _ _ _ H) as (sent & Hsub & -> & G & F & S & C & B).
        exists sent. split; [ constructor; exact Hsub | ].
        split; [ reflexivity | ].
        simpl in G, F, S, C, B. cbn [length]. repeat split; try lia; congruence.
    + destruct (decodable_cons_none w doc documents Hd) as [-> ->].
      destruct (IH _ _ _ _ H) as (sent & Hsub & -> & G & F & S & C & B).
      exists sent. split; [ exact Hsub | ]. split; [ reflexivity | ].
      simpl in G, F, S, C, B. rewrite bulks_app in B. simpl in B.
      rewrite app_nil_r in B. cbn [length]. repeat split; try lia; congruence.
Qed.

(** The [for] loop when the verdict on every record of the page is known
    beforehand. *)
Lemma collect_by_verdict (w : world) (targetIndex : string) (verdict : bool)
    (documents : list hit) :
  (forall n doc source,
      In doc documents -> decode w doc = Some source ->
      fst (changed_verdict (target_get w n targetIndex (_id doc)) source) =
      verdict) ->
  forall operations st operations' st',
    collect w targetIndex documents operations st = (operations', st') ->
    operations' =
      operations ++
      (if verdict
       then flat_map (update_lines w targetIndex) (decodable w documents)
       else []) /\
    skippedDocs st' =
      (skippedDocs st
       + if verdict then 0 else length (decodable w documents))%nat.
Proof.
  induction documents as [ | doc documents IH ];
    intros Hv operations st operations' st' H.
  - injection H as <- <-. simpl. destruct verdict; rewrite app_nil_r; auto.
  - assert (Hv' : forall n d source,
               In d documents -> decode w d = Some source ->
               fst (changed_verdict (target_get w n targetIndex (_id d)) source)
               = verdict)
      by (intros n d source Hin; apply Hv; right; exact Hin).
    cbn [collect] in H. destruct (decode w doc) as [ source | ] eqn:Hd.
    + destruct (decodable_cons_some w doc documents source Hd) as [-> _].
      pose proof (hasDocumentChanged_verdict w targetIndex (_id doc) source st)
        as Hfst.
      rewrite (Hv _ doc source (or_introl eq_refl) Hd) in Hfst.
      pose proof (hasDocumentChanged_counters w targetIndex (_id doc) source st)
        as (_ & _ & Hs & _).
      destruct (hasDocumentChanged w targetIndex (_id doc) source st)
        as [needsUpdate st1].
      cbn [fst snd] in Hfst, Hs. subst needsUpdate.
      destruct verdict.
      * destruct (IH Hv' _ _ _ _ H) as (-> & S).
        split; [ | lia ].
        cbn [flat_map]. unfold update_lines at 2. rewrite Hd.
        rewrite <- app_assoc. reflexivity.
      * destruct (IH Hv' _ _ _ _ H) as (-> & S).
        split; [ reflexivity | ]. simpl in S. cbn [length]. lia.
    + destruct (decodable_cons_none w doc documents Hd) as [-> _].
      destruct (IH Hv' _ _ _ _ H) as (-> & S). simpl in S. auto.
Qed.

Lemma differential_batch_requests (w : world) (targetIndex : string)
    (documents : list hit) (st : state) :
  let collected :=
    collect w targetIndex documents []
      (logInfo "Processing batch"
         (add_processed (length documents) (next_batch st))) in
  bulks (trace (batch w targetIndex documents st)) =
    bulks (trace (snd collected)) ++ requests (fst collected) /\
  skippedDocs (batch w targetIndex documents st) = skippedDocs (snd collected).
Proof.
  intros collected. unfold batch. fold collected.
  destruct collected as [operations st1]. cbn [fst snd].
  destruct operations as [ | x operations ].
  - simpl. rewrite bulks_app. simpl. auto.
  - remember (x :: operations) as body eqn:Eb.
    assert (Hr : requests body = [body]) by (subst body; reflexivity).
    rewrite Hr. clear Eb Hr.
    destruct (target_bulk w (bulkCalls st1) body) as [ resp | e ].
    + assert (Hfold : forall l s,
                 bulks (trace (fold_left tally l s)) = bulks (trace s) /\
                 skippedDocs (fold_left tally l s) = skippedDocs s).
      { induction l as [ | item l IH ]; intros s; [ auto | ].
        simpl. destruct (IH (tally s item)) as [-> ->].
        unfold tally. destruct (kind item); [ | destruct (item_error item) | ];
          auto. }
      destruct (Hfold (items resp) (send_bulk body st1)) as [Hb Hs].
      cbn [logInfo emit trace skippedDocs]. rewrite bulks_app, Hb, Hs.
      simpl. rewrite bulks_app. simpl. rewrite !app_nil_r. auto.
    + simpl. rewrite !bulks_app. simpl. rewrite !app_nil_r. auto.
Qed.

(** X17.  Whatever the target answers, a batch of the differential script
    asks the target once for every record that decodes and for no other;
    it makes one bulk request, or none when nothing is queued; the request
    holds an update action and an upsert line for records that decode,
    taken in page order, and never a record that failed to decode. *)
Theorem differential_batch_body (w : world) (targetIndex : string)
    (documents : list hit) (st : state) :
  let st' := batch w targetIndex documents st in
  exists sent,
    sublist sent (decodable w documents) /\
    bulks (trace st') =
      bulks (trace st) ++
      requests (flat_map (update_lines w targetIndex) sent) /\
    getCalls st' = (getCalls st + length (decodable w documents))%nat /\
    (skippedDocs st' + length sent =
     skippedDocs st + length (decodable w documents))%nat.
Proof.
  intros st'.
  destruct (differential_batch_requests w targetIndex documents st)
    as (Hb & Hs).
  fold st' in Hb, Hs.
  destruct (collect w targetIndex documents []
              (logInfo "Processing batch"
                 (add_processed (length documents) (next_batch st))))
    as [operations st1] eqn:Ec.
  destruct (collect_sends_decodable w targetIndex documents _ _ _ _ Ec)
    as (sent & Hsub & Hops & G & _ & S & C & B).
  cbn [fst snd] in Hb, Hs. simpl in Hops. subst operations.
  exists sent. split; [ exact Hsub | ]. split; [ | split ].
  - rewrite Hb, B. simpl. rewrite bulks_app. simpl. rewrite app_nil_r.
    reflexivity.
  - assert (Hg : getCalls st' = getCalls st1).
    { subst st'. unfold batch. rewrite Ec.
      destruct (flat_map (update_lines w targetIndex) sent) as [ | x l ];
        [ reflexivity | ].
      destruct (target_bulk w (bulkCalls st1) (x :: l)) as [ resp | e ];
        [ | reflexivity ].
      cbn [logInfo emit getCalls].
      assert (Hfold : forall l' s, getCalls (fold_left tally l' s) = getCalls s).
      { induction l' as [ | item l' IH ]; intros s; [ reflexivity | ].
        simpl. rewrite IH. unfold tally.
        destruct (kind item); [ | destruct (item_error item) | ];
          reflexivity. }
      rewrite Hfold. reflexivity. }
    rewrite Hg, G. reflexivity.
  - rewrite Hs. simpl in S. lia.
Qed.

(** X18.  When the target gives no stored document to compare with (the
    document is absent, the fetch fails, or the answer has no source), a
    batch of the differential script queues every record that decodes and
    skips none. *)
Theorem differential_batch_fail_open (w : world) (targetIndex : string)
    (documents : list hit) (st : state) :
  (forall n index id existingData,
      target_get w n index id <> Resolves (BodyWithSource existingData)) ->
  let st' := batch w targetIndex documents st in
  bulks (trace st') =
    bulks (trace st) ++
    requests (flat_map (update_lines w targetIndex) (decodable w documents)) /\
  skippedDocs st' = skippedDocs st.
Proof.
  intros Hblind st'.
  destruct (differential_batch_requests w targetIndex documents st)
    as (Hb & Hs).
  fold st' in Hb, Hs.
  destruct (collect w targetIndex documents []
              (logInfo "Processing batch"
                 (add_processed (length documents) (next_batch st))))
    as [operations st1] eqn:Ec.
  destruct (collect_sends_decodable w targetIndex documents _ _ _ _ Ec)
    as (_ & _ & _ & _ & _ & _ & _ & B).
  destruct (collect_by_verdict w targetIndex true documents) with
    (operations := @nil bulk_line)
    (st := logInfo "Processing batch"
             (add_processed (length documents) (next_batch st)))
    (operations' := operations) (st' := st1) as (Hops & S).
  - intros n doc source _ _.
    destruct (fst (changed_verdict (target_get w n targetIndex (_id doc))
                     source)) eqn:Hv; [ reflexivity | exfalso ].
    apply changed_verdict_false in Hv as (existingData & Hget & _).
    exact (Hblind _ _ _ _ Hget).
  - exact Ec.
  - cbn [fst snd] in Hb, Hs. simpl in Hops, S. subst operations.
    split.
    + rewrite Hb, B. simpl. rewrite bulks_app. simpl. rewrite app_nil_r.
      reflexivity.
    + rewrite Hs, S. lia.
Qed.

(** The scenario page against an empty target. *)
Lemma differential_batch_fail_open_witness :
  let w := calm [page_abc] in
  let st' := batch w "target" page_abc initial in
  length (bulks (trace st')) = 1%nat /\ skippedDocs st' = 0%nat.
Proof.
  intros w st'.
  destruct (differential_batch_fail_open w "target" page_abc initial)
    as (Hb & Hs).
  - intros n index id existingData H. discriminate H.
  - fold st' in Hb, Hs. split; [ rewrite Hb; reflexivity | exact Hs ].
Defined.

(** X19.  When the target holds, for every record of the page that
    decodes, a document identical to the transformed record, a batch of the
    differential script makes no bulk request and skips all those records. *)
Theorem differential_batch_unchanged (w : world) (targetIndex : string)
    (documents : list hit) (st : state) :
  (forall n doc source,
      In doc documents -> decode w doc = Some source ->
      target_get w n targetIndex (_id doc) =
      Resolves (BodyWithSource source)) ->
  let st' := batch w targetIndex documents st in
  bulks (trace st') = bulks (trace st) /\
  skippedDocs st' = (skippedDocs st + length (decodable w documents))%nat.
Proof.
  intros Hsame st'.
  destruct (differential_batch_requests w targetIndex documents st)
    as (Hb & Hs).
  fold st' in Hb, Hs.
  destruct (collect w targetIndex documents []
              (logInfo "Processing batch"
                 (add_processed (length documents) (next_batch st))))
    as [operations st1] eqn:Ec.
  destruct (collect_sends_decodable w targetIndex documents _ _ _ _ Ec)
    as (_ & _ & _ & _ & _ & _ & _ & B).
  destruct (collect_by_verdict w targetIndex false documents) with
    (operations := @nil bulk_line)
    (st := logInfo "Processing batch"
             (add_processed (length documents) (next_batch st)))
    (operations' := operations) (st' := st1) as (Hops & S).
  - intros n doc source Hin Hd. rewrite (Hsame n doc source Hin Hd).
    apply changed_verdict_false. exists source. auto.
  - exact Ec.
  - cbn [fst snd] in Hb, Hs. simpl in Hops, S. subst operations.
    split.
    + rewrite Hb, B. simpl. rewrite bulks_app. simpl. rewrite !app_nil_r.
      reflexivity.
    + rewrite Hs, S. reflexivity.
Qed.

(** Records [a] and [b] already in the target as transformed. *)
Lemma differential_batch_unchanged_witness :
  let stored := fun (n : nat) (index id : string) =>
    if String.eqb id "a"
    then Resolves (BodyWithSource
                     [("title", JStr "first");
                      ("jsonPayload", JObj [("n", JNum 1)])])
    else Resolves (BodyWithSource (_source doc_b)) in
  let w := with_get stored (calm [[doc_a; doc_b]]) in
  let st' := batch w "target" [doc_a; doc_b] initial in
  bulks (trace st') = [] /\ skippedDocs st' = 2%nat.
Proof.
  intros stored w st'.
  destruct (differential_batch_unchanged w "target" [doc_a; doc_b] initial)
    as (Hb & Hs).
  - intros n doc source [ <- | [ <- | [] ] ] Hd;
      vm_compute in Hd; injection Hd as <-; reflexivity.
  - fold st' in Hb, Hs. split; [ exact Hb | exact Hs ].
Defined.

(** X20.  When the source counts at least one document and hands out a
    first page that is not empty, the batch loop of the differential script
    works on that page again and again: the pass never ends, whatever fuel
    it is given, and the loop of [syncData] never reaches its wait nor a
    second pass. *)
Theorem differential_pass_never_ends (worlds : nat -> world)
    (sourceIndex targetIndex : string) (total : nat) (doc : hit)
    (documents : list hit) :
  source_count (worlds 0%nat) = Resolves (Some (S total)) ->
  source_search (worlds 0%nat) = Resolves (Some (doc :: documents)) ->
  forall turns fuel,
    syncData_try fuel (worlds 0%nat) sourceIndex targetIndex = None /\
    syncData (S turns) fuel worlds sourceIndex targetIndex =
      (Running, [PassStarted 0]).
Proof.
  intros Hcount Hsearch turns fuel.
  assert (Htry : syncData_try fuel (worlds 0%nat) sourceIndex targetIndex
                 = None).
  { unfold syncData_try. rewrite Hcount.
    destruct (getElasticsearchDocCount (worlds 0%nat) _) as [before st1].
    rewrite Hsearch, differential_batches_stay. reflexivity. }
  split; [ exact Htry | ].
  unfold syncData. cbn [forever]. unfold sync_turn. rewrite Htry.
  reflexivity.
Qed.

Lemma differential_pass_never_ends_witness :
  syncData 3 1000 (fun _ => calm [page_abc]) "source" "target" =
    (Running, [PassStarted 0]).
Proof.
  apply (differential_pass_never_ends (fun _ => calm [page_abc])
           "source" "target" 2 doc_a [doc_b; doc_c] eq_refl eq_refl 2 1000).
Defined.

End DifferentialBatchFacts.

(** ** The restart script: the tasks its passes leave behind *)

Section RestartLoopFacts.
Import Json Cluster Scheduler Restart Fixtures.

Lemma earliest_length (q : list (Z * task)) (x : Z * task)
    (rest : list (Z * task)) :
  earliest q = Some (x, rest) -> length q = S (length rest).
Proof.
  revert x rest. induction q as [ | y q IH ]; intros x rest H;
    [ discriminate H | ].
  cbn [earliest] in H. destruct (earliest q) as [ [z rest'] | ] eqn:E.
  - specialize (IH z rest' eq_refl).
    destruct (fst z <? fst y); injection H as <- <-; simpl; lia.
  - injection H as <- <-.
    pose proof (earliest_spec q) as Hq. rewrite E in Hq. subst q.
    reflexivity.
Qed.

(** X21.  While every pass of the restart script completes, no turn of
    the event loop lowers the number of pending tasks (waits, restart timers
    and passes in flight), and the settlement of a pass that [main] awaits
    raises it by one: the restart timer of line 198 comes on top of the wait
    of [main]. *)
Theorem restart_tasks_pile_up (worlds : nat -> world) (elapsed : nat -> Z)
    (sourceIndex targetIndex : string) (l l' : loop) :
  (forall n, is_normal (syncData (worlds n) sourceIndex targetIndex) = true) ->
  step worlds elapsed sourceIndex targetIndex l = Some l' ->
  (length (timers l) <= length (timers l'))%nat /\
  (forall due n rest,
      earliest (timers l) = Some ((due, PassSettles n true), rest) ->
      length (timers l') = S (length (timers l))).
Proof.
  intros Hdone Hstep. unfold step in Hstep.
  destruct (exit_code l); [ discriminate Hstep | ].
  destruct (earliest (timers l)) as [ [[due k] rest] | ] eqn:E;
    [ | discriminate Hstep ].
  apply earliest_length in E. injection Hstep as <-.
  assert (Hsettle : forall n awaited,
             length (timers
                       (settle_pass worlds sourceIndex targetIndex n awaited
                          {| now := Z.max (now l) due; timers := rest;
                             passes := passes l; history := history l;
                             exit_code := None |})) =
             (length rest + 1 + if awaited then 1 else 0)%nat).
  { intros n awaited. unfold settle_pass. cbn [timers now].
    rewrite (completed_pass_sets_timer _ _ _ (Hdone n)).
    assert (Hsettled : is_thrown (syncData (worlds n) sourceIndex targetIndex)
                       = false).
    { specialize (Hdone n).
      destruct (syncData (worlds n) sourceIndex targetIndex);
        [ reflexivity | reflexivity | discriminate Hdone ]. }
    rewrite Hsettled. cbn [andb timers].
    rewrite !length_app. destruct awaited; simpl; lia. }
  split.
  - destruct k as [ | | n awaited ].
    + unfold start_pass. cbn [timers]. rewrite length_app. simpl. lia.
    + unfold start_pass. cbn [timers]. rewrite length_app. simpl. lia.
    + rewrite Hsettle. lia.
  - intros due' n rest' H. injection H as _ -> _.
    rewrite Hsettle. lia.
Qed.

(** The first pass of a run on an empty source settles. *)
Lemma restart_tasks_pile_up_witness :
  let worlds := fun _ : nat => calm [] in
  let elapsed := fun _ : nat => 1000 in
  exists l',
    step worlds elapsed "source" "target" (boot elapsed) = Some l' /\
    length (timers l') = 2%nat.
Proof.
  intros worlds elapsed. eexists. split; [ reflexivity | ].
  refine (proj2 (restart_tasks_pile_up worlds elapsed "source" "target"
                   (boot elapsed) _ _ eq_refl) 1000 0%nat [] eq_refl).
  intros n. reflexivity.
Defined.

End RestartLoopFacts.

(** ** The differential script: the accounts of a batch *)

Section DifferentialAccounts.
Import Json Cluster Differential Paging Fixtures.










(** A response that reports an error under [update] for the second of the
    two submitted records: one is counted as updated, one as failed, beside
    the record that did not decode. *)
Example differential_batch_mixed_answer :
  let answer := {| errors := true;
                   items := [ {| kind := ItemUpdate; item_error := false |};
                              {| kind := ItemUpdate; item_error := true |} ] |} in
  let w := with_bulk (fun _ _ => Resolves answer) (calm [page_abc]) in
  let st := batch w "target" page_abc initial in
  (processedDocs st, updatedDocs st, skippedDocs st, failedDocs st) =
    (3, 1, 0, 2)%nat.
Proof. reflexivity. Qed.

End DifferentialAccounts.
